(** * JAX tutorials for PyTorch users: the notebooks' own glue code

    The notebooks train a small perceptron on MNIST.  What they author
    themselves is: a collation routine for the data loader
    ([numpy_collate]), a sampler reshuffling the indices every epoch
    ([JAXRandomSampler]), the loader shim ([NumpyLoader]), parameter
    initialisation ([init_network_params]), the forward pass, the loss, one
    step of gradient descent ([sgd_update]) and the evaluation loop
    ([accuracy], [eval_model]).

    Python values are embedded as an inductive type, exceptions as an error
    result, arrays as a shape together with their row-major data, and the
    state of the sampler as an explicit record threaded through [__iter__].
    Floating point numbers are read as real numbers; the int32 counter of
    the evaluation loop wraps around as it does in JAX. *)

From Stdlib Require Import List ZArith Arith Lia Bool Permutation.
From Stdlib Require Import Reals Lra.
Import ListNotations.

Set Implicit Arguments.
Set Warnings "-register-all".

(* ------------------------------------------------------------------ *)
(** * Python results *)

Inductive exn : Type :=
| IndexError
| TypeError
| ValueError
| ZeroDivisionError
| OverflowError.

Inductive result (A : Type) : Type :=
| Ok (a : A)
| Raise (e : exn).

Arguments Ok {A} a.
Arguments Raise {A} e.

Definition bind {A B : Type} (m : result A) (f : A -> result B) : result B :=
  match m with
  | Ok a => f a
  | Raise e => Raise e
  end.

Notation "x <- m ;; k" := (bind m (fun x => k))
  (at level 61, m at next level, right associativity).

(** Evaluation of [[f(x) for x in l]]: left to right, the first exception
    ends it. *)
Fixpoint mapM {A B : Type} (f : A -> result B) (l : list A) : result (list B) :=
  match l with
  | [] => Ok []
  | x :: r => y <- f x ;; ys <- mapM f r ;; Ok (y :: ys)
  end.

(** The same for a callee that may also exhaust its recursion budget
    ([None]). *)
Fixpoint mapM_fuel {A B : Type} (f : A -> option (result B)) (l : list A)
  : option (result (list B)) :=
  match l with
  | [] => Some (Ok [])
  | x :: r =>
      match f x with
      | None => None
      | Some (Raise e) => Some (Raise e)
      | Some (Ok y) =>
          match mapM_fuel f r with
          | None => None
          | Some (Raise e) => Some (Raise e)
          | Some (Ok ys) => Some (Ok (y :: ys))
          end
      end
  end.

(* ------------------------------------------------------------------ *)
(** * Shapes *)

(** Number of entries of an array of shape [s]. *)
Definition prod_shape (s : list nat) : nat := fold_right Nat.mul 1 s.

(** [chunks n w l]: the first [n] consecutive pieces of width [w] of [l]. *)
Fixpoint chunks {A : Type} (n w : nat) (l : list A) : list (list A) :=
  match n with
  | 0 => []
  | S n' => firstn w l :: chunks n' w (skipn w l)
  end.

Definition shape_eqb (s t : list nat) : bool :=
  if list_eq_dec Nat.eq_dec s t then true else false.

(* ------------------------------------------------------------------ *)
(** * Batch collation *)

Module Collate.

(** The values a dataset item is made of.  An [ndarray] is its shape and its
    row-major data; [scalar] stands for Python numbers and numpy scalars,
    which are neither arrays nor sequences. *)
Inductive value : Type :=
| ndarray (shape : list nat) (data : list Z)
| tuple (items : list value)
| pylist (items : list value)
| scalar (z : Z).

(** Nesting depth: sequences count one level above their deepest item, an
    array counts its number of axes. *)
Fixpoint depth (v : value) : nat :=
  match v with
  | ndarray s _ => length s
  | tuple l | pylist l =>
      S ((fix depths (l : list value) : nat :=
            match l with
            | [] => 0
            | x :: r => Nat.max (depth x) (depths r)
            end) l)
  | scalar _ => 0
  end.

Fixpoint batch_depth (batch : list value) : nat :=
  match batch with
  | [] => 0
  | x :: r => Nat.max (depth x) (batch_depth r)
  end.

(** [iter(v)]: the items of a sequence; the sub-arrays along the leading
    axis of an array (numpy scalars for a one-dimensional one); anything else
    is not iterable. *)
Definition py_iter (v : value) : result (list value) :=
  match v with
  | tuple l | pylist l => Ok l
  | ndarray (n :: []) d => Ok (map scalar (firstn n d))
  | ndarray (n :: rest) d => Ok (map (ndarray rest) (chunks n (prod_shape rest) d))
  | ndarray [] _ => Raise TypeError
  | scalar _ => Raise TypeError
  end.

(** One round of [zip]: the next item of every iterator, or [None] as soon as
    one of them is exhausted. *)
Fixpoint heads {A : Type} (ls : list (list A)) : option (list A * list (list A)) :=
  match ls with
  | [] => Some ([], [])
  | [] :: _ => None
  | (x :: xs) :: r =>
      match heads r with
      | Some (hs, ts) => Some (x :: hs, xs :: ts)
      | None => None
      end
  end.

Fixpoint zip_rounds {A : Type} (n : nat) (ls : list (list A)) : list (list A) :=
  match n with
  | 0 => []
  | S n' =>
      match heads ls with
      | Some (hs, ts) => hs :: zip_rounds n' ts
      | None => []
      end
  end.

(** [zip] applied to materialised iterators: it stops with the shortest one, so
    the length of the first bounds the number of rounds. *)
Definition zip {A : Type} (ls : list (list A)) : list (list A) :=
  zip_rounds (length (hd [] ls)) ls.

(** [zip] applied to the unpacked batch: every element of the batch is turned into an iterator
    when [zip] is called. *)
Definition zip_star (batch : list value) : result (list (list value)) :=
  its <- mapM py_iter batch ;; Ok (zip its).

(** ** numpy *)

(** The pieces of an array built from a sequence of sub-arrays must agree on
    their shape; the result gets a new leading axis. *)
Definition assemble (parts : list (list nat * list Z)) : result (list nat * list Z) :=
  match parts with
  | [] => Ok ([0], [])
  | (s, _) :: rest =>
      if forallb (fun p => shape_eqb (fst p) s) rest
      then Ok (length parts :: s, concat (map snd parts))
      else Raise ValueError
  end.

(** [np.asanyarray(v)]: an array is itself, a number a zero-dimensional
    array, a nested sequence the array of its items (ragged nesting is
    refused with [ValueError]). *)
Fixpoint as_array (v : value) : result (list nat * list Z) :=
  match v with
  | ndarray s d => Ok (s, d)
  | scalar z => Ok ([], [z])
  | tuple l | pylist l =>
      parts <- (fix go (l : list value) : result (list (list nat * list Z)) :=
                  match l with
                  | [] => Ok []
                  | x :: r => a <- as_array x ;; rs <- go r ;; Ok (a :: rs)
                  end) l ;;
      assemble parts
  end.

(** [np.array(batch)]. *)
Definition np_array (batch : list value) : result value :=
  parts <- mapM as_array batch ;;
  a <- assemble parts ;;
  Ok (ndarray (fst a) (snd a)).

(** [np.stack(batch)]: at least one array, all of one shape, joined along a
    new leading axis. *)
Definition np_stack (batch : list value) : result value :=
  parts <- mapM as_array batch ;;
  match parts with
  | [] => Raise ValueError
  | (s, _) :: rest =>
      if forallb (fun p => shape_eqb (fst p) s) rest
      then Ok (ndarray (length parts :: s) (concat (map snd parts)))
      else Raise ValueError
  end.

(** ** [numpy_collate]

    [[
    def numpy_collate(batch):
        if isinstance(batch[0], np.ndarray):
            return np.stack(batch)
        elif isinstance(batch[0], (tuple,list)):
            transposed = zip( *batch)
            return [numpy_collate(samples) for samples in transposed]
        else:
            return np.array(batch)
    ]]

    The recursion is not structural (the columns are new sequences), so the
    function is first written with a recursion budget; [None] means the
    budget ran out. *)
Fixpoint numpy_collate_fuel (fuel : nat) (batch : list value)
  : option (result value) :=
  match fuel with
  | 0 => None
  | S fuel' =>
      match batch with
      | [] => Some (Raise IndexError)
      | ndarray _ _ :: _ => Some (np_stack batch)
      | tuple _ :: _ | pylist _ :: _ =>
          match zip_star batch with
          | Raise e => Some (Raise e)
          | Ok transposed =>
              match mapM_fuel (numpy_collate_fuel fuel') transposed with
              | None => None
              | Some (Raise e) => Some (Raise e)
              | Some (Ok rs) => Some (Ok (pylist rs))
              end
          end
      | scalar _ :: _ => Some (np_array batch)
      end
  end.

(** [numpy_collate] proper: the run with a budget above the nesting depth of
    the batch, which always finishes ([numpy_collate_fuel_enough]); the
    [None] branch is never taken. *)
Definition numpy_collate (batch : list value) : result value :=
  match numpy_collate_fuel (S (batch_depth batch)) batch with
  | Some r => r
  | None => Raise ValueError
  end.

(** The body of [numpy_collate], with the recursive calls as in the source. *)
Definition numpy_collate_body (batch : list value) : result value :=
  match batch with
  | [] => Raise IndexError
  | ndarray _ _ :: _ => np_stack batch
  | tuple _ :: _ | pylist _ :: _ =>
      transposed <- zip_star batch ;;
      rs <- mapM numpy_collate transposed ;;
      Ok (pylist rs)
  | scalar _ :: _ => np_array batch
  end.

(** The sequence of [j]-th components of the elements of a batch of
    sequences, and the list of the first [k] of them. *)
Definition items (v : value) : list value :=
  match v with
  | tuple l | pylist l => l
  | _ => []
  end.

Definition column (j : nat) (batch : list value) : list value :=
  map (fun v => nth j (items v) (scalar 0)) batch.

Definition columns (k : nat) (batch : list value) : list (list value) :=
  map (fun j => column j batch) (seq 0 k).

Definition is_tuple_of (k : nat) (v : value) : Prop :=
  exists l, v = tuple l /\ length l = k.

Definition is_pylist_of (k : nat) (v : value) : Prop :=
  exists l, v = pylist l /\ length l = k.

Definition is_ndarray_of (s : list nat) (v : value) : Prop :=
  exists d, v = ndarray s d.

Definition array_data (v : value) : list Z :=
  match v with
  | ndarray _ d => d
  | _ => []
  end.

(** The three-way type test on [batch[0]] and the branch it selects. *)
Inductive branch : Type :=
| StackBranch
| TransposeBranch
| ArrayBranch.

Definition dispatch (first : value) : branch :=
  match first with
  | ndarray _ _ => StackBranch
  | tuple _ | pylist _ => TransposeBranch
  | scalar _ => ArrayBranch
  end.

Definition run_branch (b : branch) (batch : list value) : result value :=
  match b with
  | StackBranch => np_stack batch
  | TransposeBranch =>
      transposed <- zip_star batch ;;
      rs <- mapM numpy_collate transposed ;;
      Ok (pylist rs)
  | ArrayBranch => np_array batch
  end.

(** Two images of different sizes, and a pair next to a bare label. *)
Definition ragged_batch : list value :=
  [ndarray [2] [1; 2]%Z; ndarray [3] [1; 2; 3]%Z].

Definition mixed_batch : list value :=
  [tuple [scalar 1; scalar 2]; scalar 3].

(** Two dataset items as MNIST gives them: a flattened image and its label. *)
Definition item_batch : list value :=
  [tuple [ndarray [3] [0; 128; 255]%Z; scalar 5];
   tuple [ndarray [3] [7; 0; 9]%Z; scalar 0]].

Definition image_batch : list value :=
  [ndarray [3] [0; 128; 255]%Z; ndarray [3] [7; 0; 9]%Z].

(** ** The dataset transform *)

(** [[
    class FlattenAndCast(object):
        def __call__(self, pic):
            return np.ravel(np.array(pic, dtype=jnp.float32))
    ]]
    The picture as an array of float32, then its entries in order along one
    axis. *)

(** The float32 nearest to an integer: an integer of at most 24 bits is
    itself; a longer one keeps 24 significant bits, the bits below being
    rounded to the nearest, a tie to the even significand. *)
Definition round_float32 (z : Z) : Z :=
  let a := Z.abs z in
  if (a <? 2 ^ 24)%Z then z
  else
    let ulp := (2 ^ (Z.log2 a - 23))%Z in
    let q := (a / ulp)%Z in
    let r := (a mod ulp)%Z in
    let up := ((ulp <? 2 * r) || ((2 * r =? ulp) && Z.odd q))%Z in
    (Z.sgn z * ((if up then q + 1 else q) * ulp))%Z.

(** The cast of an integer entry; beyond the range of float32, where numpy
    gives an infinity or cannot convert, no integer entry is left. *)
Definition cast_float32 (z : Z) : result Z :=
  if (2 ^ 128 <=? Z.abs (round_float32 z))%Z
  then Raise OverflowError
  else Ok (round_float32 z).

Definition FlattenAndCast (pic : value) : result value :=
  a <- as_array pic ;;
  d <- mapM cast_float32 (snd a) ;;
  Ok (ndarray [prod_shape (fst a)] d).

(** An item of the dataset: the transformed picture and its label, as
    [MNIST.__getitem__] returns them. *)
Definition dataset_item (pic : value) (label : Z) : result value :=
  img <- FlattenAndCast pic ;;
  Ok (tuple [img; scalar label]).

(** The length of the shortest of a non-empty list of sequences. *)
Fixpoint min_len {A : Type} (ls : list (list A)) : nat :=
  match ls with
  | [] => 0
  | [l] => length l
  | l :: r => Nat.min (length l) (min_len r)
  end.

Definition is_sequence (v : value) : Prop :=
  match v with
  | tuple _ | pylist _ => True
  | _ => False
  end.

(** Two pictures of two by two pixels with their labels, and two tuples of
    different lengths. *)
Definition picture_items : list (list Z * Z) :=
  [([0; 128; 255; 7]%Z, 5%Z); ([1; 2; 3; 4]%Z, 0%Z)].

Definition uneven_batch : list value :=
  [tuple [scalar 1; scalar 2; scalar 3]; tuple [scalar 4; scalar 5]].

End Collate.

(* ------------------------------------------------------------------ *)
(** * The random number interface of JAX

    [jax.random] is a library; the notebooks only call it.  It is taken as an
    interface: a key type, the keys [jax.random.split] returns, the
    permutation [jax.random.permutation] returns together with what its
    documentation promises of it, and the samples [jax.random.normal]
    draws. *)

Module Jax.

Class PRNG (key : Type) : Type := {
  (** [split_at k num i]: row [i] of [jax.random.split(k, num)] *)
  split_at : key -> nat -> nat -> key;
  (** [jax.random.permutation(k, x)] for a one-dimensional [x] *)
  permutation : key -> list nat -> list nat;
  permutation_shuffles : forall k x, Permutation x (permutation k x);
  (** the [i]-th standard normal sample drawn under [k] *)
  normal_at : key -> nat -> R
}.

Section Random.
Context {key : Type} `{PRNG key}.

(** [jax.random.split(k, num)]: [num] new keys. *)
Definition split (k : key) (num : nat) : list key :=
  map (split_at k num) (seq 0 num).

(** [a, b = jax.random.split(k)], [num] being 2 by default. *)
Definition split_pair (k : key) : key * key :=
  (split_at k 2 0, split_at k 2 1).

(** A generator hands out fresh keys when two splits agree on an output only
    if they split the same key at the same position ... *)
Definition split_injective : Prop :=
  forall k k' i i', i < 2 -> i' < 2 ->
    split_at k 2 i = split_at k' 2 i' -> k = k' /\ i = i'.

(** ... and when no key comes back after being split again and again. *)
Definition split_acyclic : Prop :=
  forall k n, Nat.iter (S n) (fun k' => fst (split_pair k')) k <> k.

End Random.

(** A generator to run the development on: a key is the path of split
    positions that leads to it, a permutation is a rotation by the sum of
    the path and its length. *)
Definition rotate (r : nat) (x : list nat) : list nat :=
  skipn (r mod (length x)) x ++ firstn (r mod (length x)) x.

Definition path_key : Type := list nat.





End Jax.

(* ------------------------------------------------------------------ *)
(** * Sampler and loader *)

Module Data.
Import Jax Collate.

Section Sampler.
Context {key : Type} `{PRNG key}.

(** [jnp.arange(n)] *)
Definition arange (n : nat) : list nat := seq 0 n.

(** [[
    class JAXRandomSampler(Sampler):
        def __init__(self, data_source, rng_key):
            self.data_source = data_source
            self.rng_key = rng_key
    ]]
    [rng_key] is [None] when [NumpyLoader] is built without a key. *)
Record JAXRandomSampler : Type := {
  data_source : list value;
  rng_key : option key
}.

(** [__len__] *)
Definition sampler_len (self : JAXRandomSampler) : nat :=
  length (data_source self).

(** [[
    def __iter__(self):
        self.rng_key, current_rng = jax.random.split(self.rng_key)
        return iter(jax.random.permutation(current_rng, jnp.arange(len(self))).tolist())
    ]]
    The sampler after the call and the indices a full pass over the
    returned iterator yields. *)
Definition sampler_iter (self : JAXRandomSampler)
  : result (JAXRandomSampler * list nat) :=
  match rng_key self with
  | None => Raise TypeError
  | Some k =>
      let '(new_key, current_rng) := split_pair k in
      Ok ({| data_source := data_source self; rng_key := Some new_key |},
          permutation current_rng (arange (sampler_len self)))
  end.


(** The key stored in the sampler before pass [i], and the key pass [i] draws
    its permutation from, for a sampler constructed with [k0]. *)
Definition stored_key (k0 : key) (i : nat) : key :=
  Nat.iter i (fun k => fst (split_pair k)) k0.

Definition epoch_key (k0 : key) (i : nat) : key :=
  snd (split_pair (stored_key k0 i)).

(** ** The loader *)

Inductive sampler : Type :=
| SequentialSampler (data : list value)
| RandomSampler (s : JAXRandomSampler).

(** The keyword arguments the notebooks pass on to [DataLoader]. *)
Record kwargs : Type := {
  num_workers : nat;
  collate_fn : list value -> result value;
  drop_last : bool
}.

Record DataLoader : Type := {
  dataset : list value;
  batch_size : nat;
  loader_sampler : sampler;
  loader_kwargs : kwargs
}.

(** [DataLoader.__init__] refuses a batch size that is not positive. *)
Definition DataLoader_init (dataset : list value) (batch_size : nat)
           (sampler : sampler) (kw : kwargs) : result DataLoader :=
  match batch_size with
  | 0 => Raise ValueError
  | _ => Ok {| dataset := dataset; batch_size := batch_size;
               loader_sampler := sampler; loader_kwargs := kw |}
  end.

(** [[
    class NumpyLoader(DataLoader):
        def __init__(self, dataset, rng_key=None, batch_size=1,
                     shuffle=False, **kwargs):
            if shuffle:
                sampler = JAXRandomSampler(dataset, rng_key)
            else:
                sampler = SequentialSampler(dataset)
            super().__init__(dataset, batch_size, sampler=sampler, **kwargs)
    ]] *)
Definition NumpyLoader (dataset : list value) (rng_key : option key)
           (batch_size : nat) (shuffle : bool) (kw : kwargs) : result DataLoader :=
  let sampler :=
    if shuffle
    then RandomSampler {| data_source := dataset; rng_key := rng_key |}
    else SequentialSampler dataset in
  DataLoader_init dataset batch_size sampler kw.

(** One pass over a sampler. *)
Definition iter_sampler (s : sampler) : result (sampler * list nat) :=
  match s with
  | SequentialSampler data => Ok (s, seq 0 (length data))
  | RandomSampler js =>
      p <- sampler_iter js ;; Ok (RandomSampler (fst p), snd p)
  end.

(** Grouping of the indices into batches, as [BatchSampler] does: full
    groups of [size], and the shorter last one unless [drop_last]. *)
Fixpoint batch_indices (fuel size : nat) (drop : bool) (idx : list nat)
  : list (list nat) :=
  match fuel with
  | 0 => []
  | S fuel' =>
      match idx with
      | [] => []
      | _ =>
          if length idx <? size
          then (if drop then [] else [idx])
          else firstn size idx :: batch_indices fuel' size drop (skipn size idx)
      end
  end.

(** [dataset[i]] *)
Definition getitem (data : list value) (i : nat) : result value :=
  match nth_error data i with
  | Some v => Ok v
  | None => Raise IndexError
  end.

(** One epoch: the loader afterwards and the batches it yields, in order. *)
Definition loader_epoch (L : DataLoader) : result (DataLoader * list value) :=
  p <- iter_sampler (loader_sampler L) ;;
  batches <- mapM (fun group =>
                     samples <- mapM (getitem (dataset L)) group ;;
                     collate_fn (loader_kwargs L) samples)
                  (batch_indices (length (snd p)) (batch_size L)
                                 (drop_last (loader_kwargs L)) (snd p)) ;;
  Ok ({| dataset := dataset L; batch_size := batch_size L;
         loader_sampler := fst p; loader_kwargs := loader_kwargs L |},
      batches).

(** The batches of [m] successive epochs. *)
Fixpoint loader_epochs (m : nat) (L : DataLoader) : result (list (list value)) :=
  match m with
  | 0 => Ok []
  | S m' =>
      p <- loader_epoch L ;;
      rest <- loader_epochs m' (fst p) ;;
      Ok (snd p :: rest)
  end.

End Sampler.

Arguments JAXRandomSampler key : clear implicits.
Arguments sampler key : clear implicits.
Arguments DataLoader key : clear implicits.

(** A dataset of three labels, collated by [numpy_collate]. *)
Definition demo_dataset : list value := [scalar 10; scalar 20; scalar 30].

Definition demo_kwargs : kwargs :=
  {| num_workers := 0; collate_fn := numpy_collate; drop_last := false |}.

(** A sampler over three items, keyed with the path [[7]]. *)
Definition demo_sampler : JAXRandomSampler path_key :=
  {| data_source := [scalar 10; scalar 20; scalar 30]; rng_key := Some [7] |}.


End Data.

(* ------------------------------------------------------------------ *)
(** * The network of the pure-JAX notebook *)

Module Net.
Import Jax.

Local Open Scope R_scope.

(** A [jnp] array: its shape and its entries in row-major order. *)
Record array : Type := {
  shape : list nat;
  data : list R
}.

Definition sum (l : list R) : R := fold_right Rplus 0 l.

Fixpoint map2 {A B C : Type} (f : A -> B -> C) (l : list A) (l' : list B) : list C :=
  match l, l' with
  | x :: r, y :: r' => f x y :: map2 f r r'
  | _, _ => []
  end.

(** Entrywise operations on two arrays of one shape (broadcasting between
    different shapes is not used by the notebooks and is refused). *)
Definition zip_with (f : R -> R -> R) (a b : array) : result array :=
  if shape_eqb (shape a) (shape b)
  then Ok {| shape := shape a; data := map2 f (data a) (data b) |}
  else Raise TypeError.

Definition add : array -> array -> result array := zip_with Rplus.
Definition sub : array -> array -> result array := zip_with Rminus.
Definition mul : array -> array -> result array := zip_with Rmult.

(** A Python number times an array, an array minus a number. *)
Definition scale (c : R) (a : array) : array :=
  {| shape := shape a; data := map (Rmult c) (data a) |}.

Definition sub_scalar (a : array) (c : R) : array :=
  {| shape := shape a; data := map (fun x => x - c) (data a) |}.

Definition zeros (s : list nat) : array :=
  {| shape := s; data := repeat 0 (prod_shape s) |}.

(** ** Parameters *)

Section Init.
Context {key : Type} `{PRNG key}.

(** [jax.random.normal(k, s)] *)
Definition normal (k : key) (s : list nat) : array :=
  {| shape := s; data := map (normal_at k) (seq 0 (prod_shape s)) |}.

(** [[
    def random_layer_params(m, n, key, scale=1e-2):
        w_key, b_key = jax.random.split(key)
        return scale * jax.random.normal(w_key, (n, m)), scale * jax.random.normal(b_key, (n,))
    ]] *)
Definition default_scale : R := 1 / 100.

Definition random_layer_params (m n : nat) (k : key) (scale_ : R) : array * array :=
  let '(w_key, b_key) := split_pair k in
  (scale scale_ (normal w_key [n; m]), scale scale_ (normal b_key [n])).

(** [[
    def init_network_params(sizes, key):
        keys = jax.random.split(key, len(sizes))
        return [random_layer_params(m, n, k) for m, n, k in zip(sizes[:-1], sizes[1:], keys)]
    ]] *)
Definition init_network_params (sizes : list nat) (k : key) : list (array * array) :=
  let keys := split k (length sizes) in
  map (fun t => random_layer_params (fst (fst t)) (snd (fst t)) (snd t) default_scale)
      (combine (combine (removelast sizes) (tl sizes)) keys).

End Init.

(** ** Forward pass *)

(** [jnp.maximum(0, x)] *)
Definition relu (x : array) : array :=
  {| shape := shape x; data := map (Rmax 0) (data x) |}.

Definition dotp (u v : list R) : R := sum (map2 Rmult u v).

(** [jnp.dot(w, x)] for a matrix and a vector, the one case the notebook
    uses. *)
Definition dot (w x : array) : result array :=
  match shape w, shape x with
  | [n; m], [m'] =>
      if m =? m'
      then Ok {| shape := [n];
                 data := map (fun row => dotp row (data x)) (chunks n m (data w)) |}
      else Raise TypeError
  | _, _ => Raise TypeError
  end.

(** The loop over [params[:-1]]. *)
Fixpoint hidden_layers (layers : list (array * array)) (x : array) : result array :=
  match layers with
  | [] => Ok x
  | (w, b) :: rest =>
      y <- dot w x ;;
      z <- add y b ;;
      hidden_layers rest (relu z)
  end.

(** [[
    def model_forward(params, x):
        for w, b in params[:-1]:
            x = jnp.dot(w, x) + b
            x = relu(x)
        final_w, final_b = params[-1]
        logits = jnp.dot(final_w, x) + final_b
        return logits
    ]] *)
Definition model_forward (params : list (array * array)) (x : array) : result array :=
  x' <- hidden_layers (removelast params) x ;;
  match nth_error params (length params - 1) with
  | None => Raise IndexError
  | Some (final_w, final_b) =>
      y <- dot final_w x' ;;
      add y final_b
  end.

(** The sub-arrays along the leading axis. *)
Definition rows (a : array) : result (list array) :=
  match shape a with
  | [] => Raise ValueError
  | n :: rest =>
      Ok (map (fun d => {| shape := rest; data := d |})
              (chunks n (prod_shape rest) (data a)))
  end.

(** [vmap(f, in_axes=0, out_axes=0)]: [f] is traced once on one abstract row,
    which fixes the shape of an output (the row of zeros stands for it), and
    the outputs are stacked along a new leading axis. *)
Definition vmap (f : array -> result array) (xs : array) : result array :=
  match shape xs with
  | [] => Raise ValueError
  | _ :: rest =>
      traced <- f (zeros rest) ;;
      rs <- rows xs ;;
      outs <- mapM f rs ;;
      Ok {| shape := length outs :: shape traced;
            data := concat (map data outs) |}
  end.

(** [batched_forward = vmap(model_forward, in_axes=(None, 0), out_axes=0)] *)
Definition batched_forward (params : list (array * array)) (images : array)
  : result array :=
  vmap (model_forward params) images.

(** ** Loss *)

(** [logsumexp(a)] without an axis: over all the entries of [a]. *)
Definition logsumexp (a : array) : R := ln (sum (map exp (data a))).

(** [jnp.mean(a)] without an axis: over all the entries of [a], of which
    there is at least one (the mean of no entry is nan, which is no real
    number). *)
Definition mean (a : array) : R := sum (data a) / INR (length (data a)).

(** [[
    def loss(params, images, targets):
        logits = batched_forward(params, images)
        preds = logits - logsumexp(logits)
        return -jnp.mean(preds * targets)
    ]] *)
Definition loss (params : list (array * array)) (images targets : array) : result R :=
  logits <- batched_forward params images ;;
  let preds := sub_scalar logits (logsumexp logits) in
  pt <- mul preds targets ;;
  Ok (- mean pt).

(** [[
    def one_hot(x, k=10, dtype=jnp.float32):
        return jnp.array(x[:, None] == jnp.arange(k), dtype)
    ]] *)
Definition one_hot_row (k : nat) (xi : nat) : list R :=
  map (fun j => if xi =? j then 1 else 0) (seq 0 k).

Definition one_hot (x : list nat) (k : nat) : array :=
  {| shape := [length x; k]; data := concat (map (one_hot_row k) x) |}.

(** The quantity the batch loss is usually defined as, and which
    [optax.softmax_cross_entropy] followed by [jnp.mean] computes in the Flax
    notebooks: per row, the logsumexp of the row minus the logit of the true
    class; then the mean over the rows. *)
Definition row_cross_entropy (row : list R) (label : nat) : R :=
  ln (sum (map exp row)) - nth label row 0.

Definition mean_softmax_cross_entropy (logits : array) (labels : list nat) : R :=
  match shape logits with
  | [b; k] =>
      sum (map (fun rl => row_cross_entropy (fst rl) (snd rl))
               (combine (chunks b k (data logits)) labels))
      / INR b
  | _ => 0
  end.

(** One example, two classes, all weights and the image zero. *)
Definition zero_params : list (array * array) :=
  [({| shape := [2; 1]%nat; data := [0; 0] |},
    {| shape := [2]%nat; data := [0; 0] |})].

Definition zero_image : array := {| shape := [1; 1]%nat; data := [0] |}.

Definition zero_logits : array := {| shape := [1; 2]%nat; data := [0; 0] |}.

(** The same with a batch of two examples. *)
Definition two_zero_images : array := {| shape := [2; 1]%nat; data := [0; 0] |}.

Definition two_zero_logits : array :=
  {| shape := [2; 2]%nat; data := [0; 0; 0; 0] |}.

(** ** Parameter trees and gradient descent *)

(** A pytree: arrays at the leaves, tuples and lists as inner nodes. *)
Inductive pytree : Type :=
| Leaf (a : array)
| TupleNode (children : list pytree)
| ListNode (children : list pytree).

(** The structure of a pytree (its [treedef]): the tree without its leaves. *)
Inductive treedef : Type :=
| LeafDef
| TupleDef (children : list treedef)
| ListDef (children : list treedef).

Fixpoint structure (t : pytree) : treedef :=
  match t with
  | Leaf _ => LeafDef
  | TupleNode cs => TupleDef (map structure cs)
  | ListNode cs => ListDef (map structure cs)
  end.

(** [jax.tree_util.tree_leaves(t)] *)
Fixpoint leaves (t : pytree) : list array :=
  match t with
  | Leaf a => [a]
  | TupleNode cs | ListNode cs => flat_map leaves cs
  end.

(** [treedef.flatten_up_to(r)] for the treedef of [t]: the subtree of [r]
    at every leaf of [t]; [r] must have the nodes of [t]. *)
Fixpoint flatten_up_to (t r : pytree) : result (list pytree) :=
  let fix go (ts rs : list pytree) : result (list pytree) :=
    match ts, rs with
    | [], [] => Ok []
    | t' :: ts', r' :: rs' =>
        xs <- flatten_up_to t' r' ;; ys <- go ts' rs' ;; Ok (xs ++ ys)
    | _, _ => Raise ValueError
    end in
  match t, r with
  | Leaf _, _ => Ok [r]
  | TupleNode ts, TupleNode rs => go ts rs
  | ListNode ts, ListNode rs => go ts rs
  | _, _ => Raise ValueError
  end.

(** [treedef.unflatten(xs)] for the treedef of [t]: the tree of the shape of
    [t] whose leaves are taken from [xs] in order, and the leaves left
    over. *)
Fixpoint unflatten_from (t : pytree) (xs : list array) : pytree * list array :=
  let fix go (ts : list pytree) (xs : list array) : list pytree * list array :=
    match ts with
    | [] => ([], xs)
    | t' :: ts' =>
        let p := unflatten_from t' xs in
        let q := go ts' (snd p) in
        (fst p :: fst q, snd q)
    end in
  match t with
  | Leaf a => (Leaf (hd a xs), tl xs)
  | TupleNode ts => let q := go ts xs in (TupleNode (fst q), snd q)
  | ListNode ts => let q := go ts xs in (ListNode (fst q), snd q)
  end.

(** [jax.tree_util.tree_map(f, tree, rest)]: both trees are flattened, [f]
    is applied leaf by leaf, and the results are put back in the structure of
    [tree]. *)
Definition tree_map (f : array -> pytree -> result array) (tree rest : pytree)
  : result pytree :=
  rs <- flatten_up_to tree rest ;;
  ys <- mapM (fun pg => f (fst pg) (snd pg)) (combine (leaves tree) rs) ;;
  Ok (fst (unflatten_from tree ys)).

(** The layers held by a parameter tree: a sequence of pairs of arrays. *)
Definition as_layer (t : pytree) : result (array * array) :=
  match t with
  | TupleNode [Leaf w; Leaf b] | ListNode [Leaf w; Leaf b] => Ok (w, b)
  | TupleNode _ | ListNode _ => Raise ValueError
  | Leaf _ => Raise TypeError
  end.

Definition as_layers (t : pytree) : result (list (array * array)) :=
  match t with
  | TupleNode cs | ListNode cs => mapM as_layer cs
  | Leaf _ => Raise TypeError
  end.

Definition params_tree (params : list (array * array)) : pytree :=
  ListNode (map (fun wb => TupleNode [Leaf (fst wb); Leaf (snd wb)]) params).

(** [jax.grad] is the library's reverse-mode differentiation.  It is taken
    as an interface: the gradient of a scalar function at a tree, with what
    the library promises of its form, that the gradient is a tree of the
    structure of the argument with leaves of the same shapes. *)
Class Autodiff : Type := {
  grad : (pytree -> result R) -> pytree -> result pytree;
  grad_like : forall f t g,
      grad f t = Ok g ->
      structure g = structure t /\ map shape (leaves g) = map shape (leaves t)
}.

(** The update of one leaf: [p - lr * g]. *)
Definition sgd_leaf (lr : R) (p g : array) : array :=
  {| shape := shape p;
     data := map2 Rminus (data p) (map (Rmult lr) (data g)) |}.

(** [[
    @jit
    def sgd_update(params, x, y, lr):
        grads = grad(loss)(params, x, y)
        return jax.tree_util.tree_map(lambda p, g: p - lr * g, params, grads)
    ]] *)
Definition sgd_update `{Autodiff} (params : pytree) (x y : array) (lr : R)
  : result pytree :=
  grads <- grad (fun p => layers <- as_layers p ;; loss layers x y) params ;;
  tree_map (fun p g => match g with
                       | Leaf g' => sub p (scale lr g')
                       | _ => Raise TypeError
                       end)
           params grads.

(** The children of a node, for [flatten_up_to] and [unflatten_from]. *)
Fixpoint flatten_children (ts rs : list pytree) : result (list pytree) :=
  match ts, rs with
  | [], [] => Ok []
  | t' :: ts', r' :: rs' =>
      xs <- flatten_up_to t' r' ;; ys <- flatten_children ts' rs' ;; Ok (xs ++ ys)
  | _, _ => Raise ValueError
  end.

Fixpoint unflatten_children (ts : list pytree) (xs : list array)
  : list pytree * list array :=
  match ts with
  | [] => ([], xs)
  | t' :: ts' =>
      let p := unflatten_from t' xs in
      let q := unflatten_children ts' (snd p) in
      (fst p :: fst q, snd q)
  end.

(** What unflattening is expected to do, given enough leaves: it rebuilds
    the structure of [t], uses the first leaves in order and returns the
    others. *)
Definition unflatten_spec (t : pytree) : Prop :=
  forall xs, (length (leaves t) <= length xs)%nat ->
    structure (fst (unflatten_from t xs)) = structure t /\
    leaves (fst (unflatten_from t xs)) = firstn (length (leaves t)) xs /\
    snd (unflatten_from t xs) = skipn (length (leaves t)) xs.

(** A parameter tree of one layer. *)
Definition demo_tree : pytree :=
  ListNode [TupleNode [Leaf {| shape := [1; 2]%nat; data := [4; 8] |};
                       Leaf {| shape := [1]%nat; data := [2] |}]].

(** ** Evaluation *)

Fixpoint argmax_from (best_i : nat) (best : R) (i : nat) (l : list R) : nat :=
  match l with
  | [] => best_i
  | x :: r =>
      if Rlt_dec best x
      then argmax_from i x (S i) r
      else argmax_from best_i best (S i) r
  end.

(** Index of the first largest entry. *)
Definition argmax (row : list R) : nat :=
  match row with
  | [] => 0%nat
  | x :: r => argmax_from 0 x 1 r
  end.

(** [jnp.argmax(logits, axis=1)] on a matrix with at least one column. *)
Definition argmax_rows (logits : array) : result (list nat) :=
  match shape logits with
  | [b; k] =>
      if k =? 0 then Raise ValueError
      else Ok (map argmax (chunks b k (data logits)))
  | _ => Raise ValueError
  end.

(** [len(x)] *)
Definition len (x : array) : result nat :=
  match shape x with
  | [] => Raise TypeError
  | n :: _ => Ok n
  end.

(** ** The numbers of the evaluation loops

    [total_acc] and [total_num] start as Python numbers: the integers [0] in
    [accuracy], the floats [0.] in [eval_model].  [jnp.sum] returns a JAX
    scalar of type int32, and adding it turns [total_acc] into a JAX scalar
    as well: int32, which wraps around, in [accuracy]; float32 in
    [eval_model].  [total_num] only ever receives [len(x)] and stays a Python
    number. *)
Inductive number : Type :=
| py_int (n : Z)
| py_float (r : R)
| jnp_int32 (n : Z)
| jnp_float32 (r : R).

Definition wrap_int32 (n : Z) : Z := ((n + 2 ^ 31) mod 2 ^ 32 - 2 ^ 31)%Z.

Definition value_of (a : number) : R :=
  match a with
  | py_int n | jnp_int32 n => IZR n
  | py_float r | jnp_float32 r => r
  end.

Definition is_python (a : number) : bool :=
  match a with
  | py_int _ | py_float _ => true
  | jnp_int32 _ | jnp_float32 _ => false
  end.

(** What a float32 division returns: a number, or one of the special values
    of a division by zero. *)
Inductive float : Type :=
| finite (r : R)
| inf
| neg_inf
| nan.

(** [u == v] on two vectors compares entry by entry; a vector of one entry
    is first repeated along the other (broadcasting), and two vectors of
    different lengths above one are refused. *)
Definition broadcast (u v : list nat) : result (list nat * list nat) :=
  if length u =? length v then Ok (u, v)
  else match u, v with
       | [a], _ => Ok (repeat a (length v), v)
       | _, [b] => Ok (u, repeat b (length u))
       | _, _ => Raise TypeError
       end.

(** [jnp.sum(predicted_class == y)]: the number of entries that are true, as
    an int32. *)
Definition count_equal (predicted y : list nat) : result Z :=
  p <- broadcast predicted y ;;
  let equal := map (fun py => fst py =? snd py) (combine (fst p) (snd p)) in
  Ok (wrap_int32 (Z.of_nat (length (filter (fun e => e) equal)))).

(** [total_acc += c] for the int32 [c] that [jnp.sum] returned. *)
Definition add_count (total_acc : number) (c : Z) : number :=
  match total_acc with
  | py_int n | jnp_int32 n => jnp_int32 (wrap_int32 (n + c))
  | py_float r | jnp_float32 r => jnp_float32 (r + IZR c)
  end.

(** [total_num += len(x)] *)
Definition add_len (total_num : number) (n : nat) : number :=
  match total_num with
  | py_int m => py_int (m + Z.of_nat n)
  | py_float r => py_float (r + INR n)
  | jnp_int32 m => jnp_int32 (wrap_int32 (m + Z.of_nat n))
  | jnp_float32 r => jnp_float32 (r + INR n)
  end.

(** The loop shared by [accuracy] and [eval_model]: [predict] gives the
    predicted classes of a batch. *)
Fixpoint evaluate (predict : array -> result (list nat))
         (loader : list (array * list nat)) (total_acc total_num : number)
  : result (number * number) :=
  match loader with
  | [] => Ok (total_acc, total_num)
  | (x, y) :: rest =>
      predicted_class <- predict x ;;
      n <- len x ;;
      c <- count_equal predicted_class y ;;
      evaluate predict rest (add_count total_acc c) (add_len total_num n)
  end.

(** [total_acc / total_num].  Between two Python numbers a division by zero
    raises [ZeroDivisionError]; once [total_acc] is a JAX scalar the
    division is that of float32, which returns nan or an infinity
    instead. *)
Definition ratio (total_acc total_num : number) : result float :=
  if Req_dec_T (value_of total_num) 0
  then if is_python total_acc && is_python total_num
       then Raise ZeroDivisionError
       else Ok (if Req_dec_T (value_of total_acc) 0 then nan
                else if Rlt_dec 0 (value_of total_acc) then inf else neg_inf)
  else Ok (finite (value_of total_acc / value_of total_num)).

(** [[
    def accuracy(params, loader):
        total_acc = 0
        total_num = 0
        for x, y in loader:
            predicted_class = jnp.argmax(batched_forward(params, x), axis=1)
            total_num += len(x)
            total_acc += jnp.sum(predicted_class == y)
        return total_acc / total_num
    ]] *)
Definition predict_classes (params : list (array * array)) (x : array)
  : result (list nat) :=
  logits <- batched_forward params x ;; argmax_rows logits.

Definition accuracy (params : list (array * array))
           (loader : list (array * list nat)) : result float :=
  totals <- evaluate (predict_classes params) loader (py_int 0) (py_int 0) ;;
  ratio (fst totals) (snd totals).

(** [[
    def apply_model(state, x):
        logits = state.apply_fn(state.params, x)
        return jnp.argmax(logits, -1)

    def eval_model(state, loader):
        total_acc = 0.
        total_num = 0.
        for x, y in loader:
            y_pred = apply_model(state, x)
            total_num += len(x)
            total_acc += jnp.sum(y_pred == y)
        return total_acc / total_num
    ]]
    The train state of Flax holds the model's [apply_fn] and its
    parameters. *)
Record TrainState (P : Type) : Type := {
  apply_fn : P -> array -> result array;
  state_params : P
}.

Definition apply_model {P : Type} (state : TrainState P) (x : array)
  : result (list nat) :=
  logits <- apply_fn state (state_params state) x ;; argmax_rows logits.

Definition eval_model {P : Type} (state : TrainState P)
           (loader : list (array * list nat)) : result float :=
  totals <- evaluate (apply_model state) loader (py_float 0) (py_float 0) ;;
  ratio (fst totals) (snd totals).

(** The number of examples whose predicted class is their label. *)
Fixpoint correct (predicted labels : list nat) : nat :=
  match predicted, labels with
  | c :: predicted', y :: labels' =>
      (if c =? y then 1 else 0) + correct predicted' labels'
  | _, _ => 0
  end.

(** The labels of all the batches of a loader, in order. *)
Definition labels_of (loader : list (array * list nat)) : list nat :=
  concat (map snd loader).

(** The rows of logits of all the batches, in order: one row of [k] logits
    per example. *)
Definition logit_rows (k : nat) (logits : list array) : list (list R) :=
  concat (map (fun lg => chunks (hd 0%nat (shape lg)) k (data lg)) logits).

(** Three examples in two batches; the only layer is the identity. *)
Definition identity_params : list (array * array) :=
  [({| shape := [2; 2]%nat; data := [1; 0; 0; 1] |},
    {| shape := [2]%nat; data := [0; 0] |})].

Definition demo_loader : list (array * list nat) :=
  [({| shape := [2; 2]%nat; data := [3; 1; 1; 3] |}, [0; 0]%nat);
   ({| shape := [1; 2]%nat; data := [0; 5] |}, [1]%nat)].

(** The logits of its two batches under the identity layer. *)
Definition demo_logits : list array :=
  [{| shape := [2; 2]%nat; data := [3; 1; 1; 3] |};
   {| shape := [1; 2]%nat; data := [0; 5] |}].

Definition demo_state : TrainState (list (array * array)) :=
  {| apply_fn := batched_forward; state_params := identity_params |}.

(** ** Shapes along the network *)

(** An array whose data fill its shape, as every [jnp] array does. *)
Definition well_formed (a : array) : Prop :=
  length (data a) = prod_shape (shape a).

(** Layers that chain: the first takes [n0] inputs, each next one takes what
    the previous one gives, the last gives [nL] outputs. *)
Fixpoint layers_fit (n0 : nat) (params : list (array * array)) (nL : nat) : Prop :=
  match params with
  | [] => n0 = nL
  | (w, b) :: rest =>
      exists n, shape w = [n; n0] /\ shape b = [n] /\
                well_formed w /\ well_formed b /\ layers_fit n rest nL
  end.

(** A network of one layer and two inputs for it. *)
Definition small_params : list (array * array) :=
  [({| shape := [2; 3]%nat; data := [1; 0; 2; 0; 1; 0] |},
    {| shape := [2]%nat; data := [0; 1] |})].

Definition small_input : array := {| shape := [3]%nat; data := [1; 2; 3] |}.

Definition small_images : array :=
  {| shape := [2; 3]%nat; data := [1; 2; 3; 0; 0; 1] |}.

(** ** The learning rate of the training loop *)

(** [[
    lr = lr * 0.999 if lr > 1e-3 else 1e-3  # very simple lr scheduler
    ]] *)
Definition lr_step (lr : R) : R :=
  if Rlt_dec (1 / 1000) lr then lr * (999 / 1000) else 1 / 1000.

(** The layers after one step, given the layers of the gradient. *)
Definition step_layers (lr : R) (params grads : list (array * array))
  : list (array * array) :=
  map2 (fun p g => (sgd_leaf lr (fst p) (fst g), sgd_leaf lr (snd p) (snd g)))
       params grads.

(** ** Batches spread over devices *)

(** [[
    lambda x: x.reshape((jax.local_device_count(), -1) + x.shape[1:])
    ]]
    [reshape] infers the axis given as [-1] from the number of entries and
    refuses ([ValueError]) when the other axes multiply to zero or do not
    divide it. *)
Definition shard (devices : nat) (x : array) : result array :=
  let rest := tl (shape x) in
  let known := (devices * prod_shape rest)%nat in
  let size := prod_shape (shape x) in
  if (known =? 0) || negb (size mod known =? 0)
  then Raise ValueError
  else Ok {| shape := devices :: (size / known)%nat :: rest; data := data x |}.

(** A batch of six examples of two features. *)
Definition six_images : array :=
  {| shape := [6; 2]%nat; data := [1; 2; 3; 4; 5; 6; 7; 8; 9; 10; 11; 12] |}.

End Net.

(* ------------------------------------------------------------------ *)
(** * The training loop of the pure-JAX notebook *)

Module Train.
Import Jax Collate Data Net.

Section Loop.
Context {key : Type} `{PRNG key}.

(** The parameters, and the two computations of the loop that look into a
    batch [[x, y]]: the step
    [params = sgd_update(params, x, one_hot(y, n_classes), lr)], and, in
    [accuracy], the int32 count [jnp.sum(predicted_class == y)] together with
    [len(x)]. *)
Variable P : Type.
Variable update : P -> value -> R -> result P.
Variable score : P -> value -> result (Z * nat).

(** [iter(loader)]: the sampler is iterated, which splits the key of a
    shuffling loader, and its indices are grouped into batches. *)
Definition loader_groups (L : DataLoader key)
  : result (DataLoader key * list (list nat)) :=
  p <- iter_sampler (loader_sampler L) ;;
  Ok ({| dataset := dataset L; batch_size := batch_size L;
         loader_sampler := fst p; loader_kwargs := loader_kwargs L |},
      batch_indices (length (snd p)) (batch_size L)
                    (drop_last (loader_kwargs L)) (snd p)).

(** The next batch: the items are fetched and collated when the loop asks
    for them. *)
Definition fetch (L : DataLoader key) (group : list nat) : result value :=
  samples <- mapM (getitem (dataset L)) group ;;
  collate_fn (loader_kwargs L) samples.

(** [accuracy(params, loader)]: one pass over the loader. *)
Fixpoint accuracy_batches (params : P) (L : DataLoader key)
         (groups : list (list nat)) (total_acc total_num : number)
  : result (number * number) :=
  match groups with
  | [] => Ok (total_acc, total_num)
  | g :: rest =>
      b <- fetch L g ;;
      c <- score params b ;;
      accuracy_batches params L rest (add_count total_acc (fst c))
                       (add_len total_num (snd c))
  end.

Definition accuracy_on (params : P) (L : DataLoader key)
  : result (DataLoader key * float) :=
  p <- loader_groups L ;;
  totals <- accuracy_batches params (fst p) (snd p) (py_int 0) (py_int 0) ;;
  a <- ratio (fst totals) (snd totals) ;;
  Ok (fst p, a).

(** The variables of the loop; [printed] collects the lines
    [(epoch, idx, train_acc, eval_acc)] it prints. *)
Record loop_state : Type := {
  params : P;
  lr : R;
  train_loader : DataLoader key;
  eval_loader : DataLoader key;
  printed : list (nat * nat * float * float)
}.

(** [[
    for idx, (x, y) in enumerate(train_loader):
        y = one_hot(y, n_classes)
        params = sgd_update(params, x, y, lr)
        lr = lr * 0.999 if lr > 1e-3 else 1e-3
        if idx % 100 == 0:
            train_acc = accuracy(params, train_loader)
            eval_acc = accuracy(params, eval_loader)
            print(...)
    ]]
    from batch [idx] on, [groups] being the batches still to come. *)
Fixpoint train_batches (epoch idx : nat) (groups : list (list nat))
         (st : loop_state) : result loop_state :=
  match groups with
  | [] => Ok st
  | g :: rest =>
      b <- fetch (train_loader st) g ;;
      params' <- update (params st) b (lr st) ;;
      if idx mod 100 =? 0
      then
        t <- accuracy_on params' (train_loader st) ;;
        e <- accuracy_on params' (eval_loader st) ;;
        train_batches epoch (S idx) rest
          {| params := params'; lr := lr_step (lr st);
             train_loader := fst t; eval_loader := fst e;
             printed := printed st ++ [(epoch, idx, snd t, snd e)] |}
      else
        train_batches epoch (S idx) rest
          {| params := params'; lr := lr_step (lr st);
             train_loader := train_loader st; eval_loader := eval_loader st;
             printed := printed st |}
  end.

Definition train_epoch (epoch : nat) (st : loop_state) : result loop_state :=
  p <- loader_groups (train_loader st) ;;
  train_batches epoch 0 (snd p)
    {| params := params st; lr := lr st;
       train_loader := fst p; eval_loader := eval_loader st;
       printed := printed st |}.

(** [for epoch in range(n)], counting from [epoch]. *)
Fixpoint train_epochs (n epoch : nat) (st : loop_state) : result loop_state :=
  match n with
  | 0 => Ok st
  | S n' => st' <- train_epoch epoch st ;; train_epochs n' (S epoch) st'
  end.

(** The loader whose sampler has split its key [m] more times; a sequential
    loader has no key to split. *)
Definition advance_key (m : nat) (L : DataLoader key) : DataLoader key :=
  match loader_sampler L with
  | RandomSampler js =>
      match rng_key js with
      | Some k =>
          {| dataset := dataset L; batch_size := batch_size L;
             loader_sampler :=
               RandomSampler {| data_source := data_source js;
                                rng_key := Some (stored_key k m) |};
             loader_kwargs := loader_kwargs L |}
      | None => L
      end
  | SequentialSampler _ => L
  end.

(** The number of indices a pass over the sampler of a loader yields. *)
Definition sampler_size (L : DataLoader key) : nat :=
  match loader_sampler L with
  | SequentialSampler data => length data
  | RandomSampler js => length (data_source js)
  end.

End Loop.

(** Batches per epoch, and evaluations among the batches [idx, ...,
    idx + n - 1]. *)
Definition num_batches (n size : nat) (drop : bool) : nat :=
  if drop then n / size else (n + size - 1) / size.

Definition evaluations (idx n : nat) : nat :=
  length (filter (fun i => i mod 100 =? 0) (seq idx n)).

(** A run to try the loop on: the parameters count the steps, every batch
    scores one correct prediction out of one example. *)
Definition count_update (p : nat) (b : value) (rate : R) : result nat := Ok (S p).

Definition unit_score (p : nat) (b : value) : result (Z * nat) := Ok (1%Z, 1).

Definition demo_loop_state : @loop_state path_key nat :=
  {| params := 0;
     lr := (1 / 100)%R;
     train_loader :=
       {| dataset := demo_dataset; batch_size := 2;
          loader_sampler := RandomSampler demo_sampler;
          loader_kwargs := demo_kwargs |};
     eval_loader :=
       {| dataset := demo_dataset; batch_size := 2;
          loader_sampler := SequentialSampler demo_dataset;
          loader_kwargs := demo_kwargs |};
     printed := [] |}.

End Train.

(* ================================================================== *)
(** * Properties of the collation routine *)

Import Collate Jax Data.

Section CollateFacts.

Lemma mapM_fuel_total {A B : Type} (f : A -> option (result B))
      (g : A -> result B) (l : list A) :
  (forall x, In x l -> f x = Some (g x)) ->
  mapM_fuel f l = Some (mapM g l).
Proof.
  induction l as [|x r IH]; intros Hf; simpl; [reflexivity|].
  rewrite (Hf x (or_introl eq_refl)).
  rewrite IH by (intros y Hy; apply Hf; right; exact Hy).
  destruct (g x) as [y|e]; simpl; [|reflexivity].
  destruct (mapM g r); reflexivity.
Qed.

Lemma mapM_fuel_ext {A B : Type} (f g : A -> option (result B)) (l : list A) :
  (forall x, In x l -> f x = g x) ->
  mapM_fuel f l = mapM_fuel g l.
Proof.
  induction l as [|x r IH]; intros Hfg; simpl; [reflexivity|].
  rewrite (Hfg x (or_introl eq_refl)).
  rewrite IH by (intros y Hy; apply Hfg; right; exact Hy).
  reflexivity.
Qed.

Lemma mapM_ok_Forall2 {A B : Type} (f : A -> result B) (l : list A) (rs : list B) :
  mapM f l = Ok rs <-> Forall2 (fun x r => f x = Ok r) l rs.
Proof.
  revert rs; induction l as [|x r IH]; intros rs; simpl.
  - split.
    + intros H; inversion H; constructor.
    + intros H; inversion H; reflexivity.
  - split.
    + destruct (f x) as [y|e] eqn:Hx; simpl; [|discriminate].
      destruct (mapM f r) as [ys|e] eqn:Hr; simpl; [|discriminate].
      intros H; inversion H; subst.
      constructor; [exact Hx | apply IH; reflexivity].
    + intros H; inversion H as [|? y ? ys Hx Hr]; subst.
      rewrite Hx; simpl.
      apply IH in Hr; rewrite Hr; reflexivity.
Qed.

(** Items handed out by an iterator are strictly less nested than the value
    iterated over. *)
Lemma depth_items (l : list value) (x : value) :
  In x l -> depth x <= batch_depth l.
Proof.
  induction l as [|y r IH]; simpl; [contradiction|].
  intros [->|H]; [lia | specialize (IH H); lia].
Qed.

Lemma depth_seq (l : list value) :
  depth (tuple l) = S (batch_depth l) /\ depth (pylist l) = S (batch_depth l).
Proof.
  split; simpl; f_equal; induction l as [|y r IH]; simpl; congruence.
Qed.

Lemma py_iter_depth (v : value) (its : list value) (x : value) :
  py_iter v = Ok its -> In x its -> depth x < depth v.
Proof.
  destruct v as [s d|l|l|z]; simpl.
  - destruct s as [|n rest]; [discriminate|].
    destruct rest as [|m rest'].
    + intros H; inversion H; subst; clear H.
      intros Hin; apply in_map_iff in Hin as [z [<- _]]; simpl; lia.
    + intros H; inversion H; subst; clear H.
      intros Hin; apply in_map_iff in Hin as [c [<- _]]; simpl; lia.
  - intros H; inversion H; subst; intros Hin.
    apply depth_items in Hin.
    pose proof (depth_seq its) as [E _]; simpl in E |- *; lia.
  - intros H; inversion H; subst; intros Hin.
    apply depth_items in Hin.
    pose proof (depth_seq its) as [_ E]; simpl in E |- *; lia.
  - discriminate.
Qed.

Lemma heads_Forall2 {A : Type} (ls : list (list A)) hs ts :
  heads ls = Some (hs, ts) ->
  Forall2 (fun x l => In x l) hs ls /\
  Forall2 (fun t l => forall x, In x t -> In x l) ts ls.
Proof.
  revert hs ts; induction ls as [|l r IH]; intros hs ts; simpl.
  - intros H; inversion H; split; constructor.
  - destruct l as [|x xs]; [discriminate|].
    destruct (heads r) as [[hs' ts']|] eqn:Hr; [|discriminate].
    intros H; inversion H; subst; clear H.
    destruct (IH _ _ eq_refl) as [H1 H2].
    split; constructor; simpl; auto.
Qed.

Lemma zip_rounds_Forall2 {A : Type} (n : nat) (ls : list (list A)) (c : list A) :
  In c (zip_rounds n ls) -> Forall2 (fun x l => In x l) c ls.
Proof.
  revert ls; induction n as [|n IH]; intros ls; simpl; [contradiction|].
  destruct (heads ls) as [[hs ts]|] eqn:Hh; [|contradiction].
  apply heads_Forall2 in Hh as [H1 H2].
  intros [<-|Hin]; [exact H1|].
  specialize (IH _ Hin).
  clear - IH H2.
  revert c IH; induction H2 as [|t l ts ls Htl _ IH2]; intros c Hc.
  - inversion Hc; constructor.
  - inversion Hc; subst; constructor; auto.
Qed.

Lemma mapM_py_iter_depth (batch : list value) (its : list (list value)) :
  mapM py_iter batch = Ok its ->
  Forall2 (fun l v => forall x, In x l -> depth x < depth v) its batch.
Proof.
  intros H; apply mapM_ok_Forall2 in H.
  induction H as [|v l batch its Hv _ IH]; constructor; auto.
  intros x Hx; eapply py_iter_depth; eauto.
Qed.

Lemma column_depth (c batch : list value) :
  Forall2 (fun x v => depth x < depth v) c batch ->
  batch <> [] -> batch_depth c < batch_depth batch.
Proof.
  induction 1 as [|x v c batch Hxv Hrest IH]; intros Hne; [congruence|].
  simpl. destruct batch as [|v' batch'].
  - inversion Hrest; subst; simpl; lia.
  - assert (batch_depth c < batch_depth (v' :: batch')) by (apply IH; discriminate).
    lia.
Qed.

(** Every column produced by [zip] is strictly less nested than the batch:
    the measure that bounds the recursion of [numpy_collate]. *)
Lemma zip_star_depth (batch : list value) (transposed : list (list value))
      (samples : list value) :
  zip_star batch = Ok transposed ->
  In samples transposed ->
  batch_depth samples < batch_depth batch.
Proof.
  unfold zip_star.
  destruct (mapM py_iter batch) as [its|e] eqn:Hits; simpl; [|discriminate].
  intros H; inversion H; subst; clear H.
  unfold zip; intros Hin.
  destruct batch as [|v batch'].
  - simpl in Hits; inversion Hits; subst; simpl in Hin; contradiction.
  - apply zip_rounds_Forall2 in Hin.
    apply mapM_py_iter_depth in Hits.
    apply column_depth; [|discriminate].
    clear - Hin Hits.
    revert samples Hin; induction Hits as [|l v0 its batch Hl _ IH]; intros samples Hin.
    + inversion Hin; constructor.
    + inversion Hin; subst; constructor; auto.
Qed.

Lemma mapM_fuel_some {A B : Type} (f : A -> option (result B)) (l : list A) :
  (forall x, In x l -> exists r, f x = Some r) ->
  exists r, mapM_fuel f l = Some r.
Proof.
  induction l as [|x r IH]; intros Hf; simpl; [eauto|].
  destruct (Hf x (or_introl eq_refl)) as [rx ->].
  destruct IH as [rr ->]; [intros y Hy; apply Hf; right; exact Hy|].
  destruct rx; [destruct rr|]; eauto.
Qed.

Lemma numpy_collate_fuel_some (fuel : nat) :
  forall batch, batch_depth batch < fuel ->
  exists r, numpy_collate_fuel fuel batch = Some r.
Proof.
  induction fuel as [|fuel IH]; intros batch Hd; [lia|].
  simpl.
  destruct batch as [|[s d|l|l|z] rest]; eauto;
    (destruct (zip_star _) as [transposed|e] eqn:Hz; [|eauto];
     destruct (@mapM_fuel_some _ _ (numpy_collate_fuel fuel) transposed) as [r ->];
     [ intros c Hc; apply IH;
       pose proof (@zip_star_depth _ _ _ Hz Hc); lia
     | destruct r; eauto ]).
Qed.

Lemma numpy_collate_fuel_indep (f1 : nat) :
  forall f2 batch,
  batch_depth batch < f1 -> batch_depth batch < f2 ->
  numpy_collate_fuel f1 batch = numpy_collate_fuel f2 batch.
Proof.
  induction f1 as [|f1 IH]; intros f2 batch H1 H2; [lia|].
  destruct f2 as [|f2]; [lia|].
  simpl.
  destruct batch as [|[s d|l|l|z] rest]; try reflexivity;
    (destruct (zip_star _) as [transposed|e] eqn:Hz; [|reflexivity];
     rewrite (@mapM_fuel_ext _ _ (numpy_collate_fuel f1) (numpy_collate_fuel f2));
     [ reflexivity
     | intros c Hc; pose proof (@zip_star_depth _ _ _ Hz Hc); apply IH; lia ]).
Qed.

(** Any budget above the nesting depth of the batch gives the result of
    [numpy_collate]. *)
Lemma numpy_collate_fuel_enough (fuel : nat) (batch : list value) :
  batch_depth batch < fuel ->
  numpy_collate_fuel fuel batch = Some (numpy_collate batch).
Proof.
  intros Hd. unfold numpy_collate.
  rewrite (@numpy_collate_fuel_indep fuel (S (batch_depth batch)) batch) by lia.
  destruct (@numpy_collate_fuel_some (S (batch_depth batch)) batch) as [r ->]; [lia|].
  reflexivity.
Qed.

Lemma numpy_collate_eq (batch : list value) :
  numpy_collate batch = numpy_collate_body batch.
Proof.
  unfold numpy_collate, numpy_collate_body. simpl.
  destruct batch as [|[s d|l|l|z] rest]; try reflexivity;
    (destruct (zip_star _) as [transposed|e] eqn:Hz; simpl; [|reflexivity];
     rewrite (@mapM_fuel_total _ _ _ numpy_collate);
     [ destruct (mapM numpy_collate transposed); reflexivity
     | intros c Hc; apply numpy_collate_fuel_enough;
       exact (@zip_star_depth _ _ _ Hz Hc) ]).
Qed.

(** [zip] over sequences of one length [k] is transposition. *)
Lemma heads_nonempty {A : Type} (d : A) (ls : list (list A)) :
  Forall (fun l => l <> []) ls ->
  heads ls = Some (map (fun l => nth 0 l d) ls, map (@tl A) ls).
Proof.
  induction 1 as [|l r Hl _ IH]; simpl; [reflexivity|].
  destruct l as [|x xs]; [congruence|].
  rewrite IH; reflexivity.
Qed.

Lemma zip_rounds_transpose {A : Type} (d : A) (k : nat) :
  forall ls : list (list A),
  Forall (fun l => length l = k) ls ->
  zip_rounds k ls = map (fun j => map (fun l => nth j l d) ls) (seq 0 k).
Proof.
  induction k as [|k IH]; intros ls Hlen; [reflexivity|].
  cbn [zip_rounds].
  rewrite (heads_nonempty d).
  - cbn [seq map]. f_equal.
    rewrite IH.
    + rewrite <- seq_shift, map_map.
      apply map_ext; intros j.
      rewrite map_map. apply map_ext; intros l.
      destruct l; [destruct j|]; reflexivity.
    + rewrite Forall_map. eapply Forall_impl; [|exact Hlen].
      intros l Hl; destruct l; simpl in *; lia.
  - eapply Forall_impl; [|exact Hlen].
    intros l Hl; destruct l; simpl in *; [lia|discriminate].
Qed.

Lemma zip_star_columns (k : nat) (batch : list value) :
  batch <> [] ->
  Forall (fun v => is_tuple_of k v \/ is_pylist_of k v) batch ->
  zip_star batch = Ok (columns k batch).
Proof.
  intros Hne Hall. unfold zip_star.
  assert (Hit : mapM py_iter batch = Ok (map items batch)).
  { clear Hne. induction Hall as [|v r Hv _ IH]; simpl; [reflexivity|].
    rewrite IH. destruct Hv as [[l [-> _]]|[l [-> _]]]; reflexivity. }
  rewrite Hit; simpl. f_equal.
  assert (Hlen : Forall (fun l => length l = k) (map items batch)).
  { rewrite Forall_map. eapply Forall_impl; [|exact Hall].
    intros v [[l [-> Hl]]|[l [-> Hl]]]; exact Hl. }
  unfold zip.
  replace (length (hd [] (map items batch))) with k.
  - rewrite (zip_rounds_transpose (scalar 0) Hlen).
    unfold columns, column. apply map_ext; intros j.
    rewrite map_map; reflexivity.
  - destruct batch as [|v r]; [congruence|].
    inversion Hlen; subst; reflexivity.
Qed.

Lemma np_stack_same_shape (s : list nat) (batch : list value) :
  batch <> [] ->
  Forall (is_ndarray_of s) batch ->
  np_stack batch = Ok (ndarray (length batch :: s) (concat (map array_data batch))).
Proof.
  intros Hne Hall. unfold np_stack.
  assert (Hparts : mapM as_array batch = Ok (map (fun v => (s, array_data v)) batch)).
  { clear Hne. induction Hall as [|v r [d ->] _ IH]; simpl; [reflexivity|].
    rewrite IH; reflexivity. }
  rewrite Hparts; simpl.
  destruct batch as [|v r]; [congruence|]. cbn [map].
  assert (Hsame : forallb (fun p : list nat * list Z => shape_eqb (fst p) s)
                    (map (fun v => (s, array_data v)) r) = true).
  { apply forallb_forall. intros p Hp.
    apply in_map_iff in Hp as [w [<- _]]. simpl.
    unfold shape_eqb. destruct (list_eq_dec Nat.eq_dec s s); congruence. }
  rewrite Hsame. cbn [length map]. rewrite length_map.
  do 2 f_equal. cbn [concat snd]. f_equal. rewrite map_map. reflexivity.
Qed.

Lemma Forall2_nth_ok {A B : Type} (P : A -> B -> Prop) (l : list A) (l' : list B)
      (da : A) (db : B) :
  Forall2 P l l' ->
  forall j, j < length l -> P (nth j l da) (nth j l' db).
Proof.
  induction 1 as [|x y l l' Hxy _ IH]; intros j Hj; simpl in *; [lia|].
  destruct j; [exact Hxy | apply IH; lia].
Qed.

Lemma nth_columns (k j : nat) (batch : list value) :
  j < k -> nth j (columns k batch) [] = column j batch.
Proof.
  intros Hj. unfold columns.
  rewrite (nth_indep _ [] (column 0 batch)) by (rewrite length_map, length_seq; exact Hj).
  rewrite (map_nth (fun j => column j batch) (seq 0 k) 0 j).
  rewrite seq_nth by exact Hj. reflexivity.
Qed.

(** C3.  On a non-empty batch of tuples (or of lists) of one length [k],
    [numpy_collate] is the list of the [k] collated columns, the [j]-th
    column being the sequence of [j]-th components of the batch elements: if
    it returns, it returns a list of length [k] whose [j]-th element is the
    result of [numpy_collate] on the [j]-th column.  On a non-empty batch of
    arrays of one shape [s] it returns the single array of shape
    [length batch :: s] holding their data one after the other. *)
Theorem numpy_collate_transposes_and_stacks
        (batch : list value) (Hne : batch <> []) :
  (forall k,
      Forall (is_tuple_of k) batch \/ Forall (is_pylist_of k) batch ->
      numpy_collate batch
      = (rs <- mapM numpy_collate (columns k batch) ;; Ok (pylist rs)) /\
      (forall v, numpy_collate batch = Ok v ->
         exists rs, v = pylist rs /\ length rs = k /\
           forall j, j < k ->
             numpy_collate (column j batch) = Ok (nth j rs (scalar 0)))) /\
  (forall s,
      Forall (is_ndarray_of s) batch ->
      numpy_collate batch
      = Ok (ndarray (length batch :: s) (concat (map array_data batch)))).
Proof.
  split.
  - intros k Hall.
    assert (Hmix : Forall (fun v => is_tuple_of k v \/ is_pylist_of k v) batch).
    { destruct Hall as [H|H]; (eapply Forall_impl; [|exact H]); intros v Hv; tauto. }
    assert (Heq : numpy_collate batch
                  = (rs <- mapM numpy_collate (columns k batch) ;; Ok (pylist rs))).
    { rewrite numpy_collate_eq.
      pose proof (zip_star_columns Hne Hmix) as Hz.
      destruct batch as [|first rest]; [congruence|].
      inversion Hmix as [|? ? Hfirst _]; subst.
      destruct Hfirst as [[l [-> _]]|[l [-> _]]];
        unfold numpy_collate_body; rewrite Hz; reflexivity. }
    split; [exact Heq|].
    intros v Hv. rewrite Heq in Hv.
    destruct (mapM numpy_collate (columns k batch)) as [rs|e] eqn:Hrs;
      simpl in Hv; [|discriminate].
    inversion Hv; subst; clear Hv.
    apply mapM_ok_Forall2 in Hrs.
    exists rs. split; [reflexivity|].
    pose proof (Forall2_length Hrs) as Hlen.
    unfold columns in Hlen at 1. rewrite length_map, length_seq in Hlen.
    split; [symmetry; exact Hlen|].
    intros j Hj.
    rewrite <- (nth_columns batch Hj).
    apply (Forall2_nth_ok (P := fun c r => numpy_collate c = Ok r)); [exact Hrs|].
    unfold columns. rewrite length_map, length_seq. exact Hj.
  - intros s Hall.
    rewrite numpy_collate_eq.
    pose proof (np_stack_same_shape Hne Hall) as Hs.
    destruct batch as [|first rest]; [congruence|].
    inversion Hall as [|? ? [d ->] _]; subst.
    unfold numpy_collate_body. exact Hs.
Qed.

Lemma numpy_collate_transposes_and_stacks_witness :
  (item_batch <> [] /\ Forall (is_tuple_of 2) item_batch /\
   numpy_collate item_batch
   = Ok (pylist [ndarray [2; 3] [0; 128; 255; 7; 0; 9]%Z; ndarray [2] [5; 0]%Z])) /\
  (image_batch <> [] /\ Forall (is_ndarray_of [3]) image_batch /\
   numpy_collate image_batch = Ok (ndarray [2; 3] [0; 128; 255; 7; 0; 9]%Z)).
Proof.
  assert (Hi : item_batch <> []) by discriminate.
  assert (Hm : image_batch <> []) by discriminate.
  assert (Ht : Forall (is_tuple_of 2) item_batch).
  { repeat constructor; eexists; split; reflexivity. }
  assert (Ha : Forall (is_ndarray_of [3]) image_batch).
  { repeat constructor; eexists; reflexivity. }
  split.
  - split; [exact Hi|]. split; [exact Ht|].
    destruct (numpy_collate_transposes_and_stacks Hi) as [Hrows _].
    destruct (Hrows 2 (or_introl Ht)) as [Heq _].
    rewrite Heq. reflexivity.
  - split; [exact Hm|]. split; [exact Ha|].
    destruct (numpy_collate_transposes_and_stacks Hm) as [_ Hstack].
    rewrite (Hstack [3] Ha). reflexivity.
Defined.

(** C8, as the code has it.  On the empty batch [numpy_collate] fails with
    [IndexError] when it evaluates [batch[0]]; on a non-empty batch the type
    of [batch[0]] selects exactly one of the three branches, whose outcome is
    the outcome of the call; a batch on which [numpy_collate] returns is
    therefore non-empty.  Non-emptiness is not sufficient: the selected
    branch may itself raise, as [np.stack] does on arrays of different
    shapes and [zip] on an element that is not iterable. *)
Theorem numpy_collate_dispatch :
  numpy_collate [] = Raise IndexError /\
  (forall first rest,
      numpy_collate (first :: rest) = run_branch (dispatch first) (first :: rest)) /\
  (forall batch v, numpy_collate batch = Ok v -> batch <> []) /\
  (ragged_batch <> [] /\ numpy_collate ragged_batch = Raise ValueError) /\
  (mixed_batch <> [] /\ numpy_collate mixed_batch = Raise TypeError).
Proof.
  split; [reflexivity|].
  split.
  { intros first rest. rewrite numpy_collate_eq.
    destruct first; reflexivity. }
  split.
  { intros batch v Hv ->. discriminate Hv. }
  split; (split; [discriminate | reflexivity]).
Qed.

Lemma numpy_collate_dispatch_witness :
  numpy_collate image_batch = Ok (ndarray [2; 3] [0; 128; 255; 7; 0; 9]%Z) /\
  image_batch <> [].
Proof.
  assert (H : numpy_collate image_batch
              = Ok (ndarray [2; 3] [0; 128; 255; 7; 0; 9]%Z)) by reflexivity.
  split; [exact H|].
  destruct numpy_collate_dispatch as [_ [_ [Hnonempty _]]].
  exact (Hnonempty _ _ H).
Defined.

(** C8 as stated fails: a non-empty batch of two arrays of different shapes
    makes [np.stack], hence [numpy_collate], raise [ValueError]. *)
Lemma numpy_collate_nonempty_not_sufficient :
  ragged_batch <> [] /\
  numpy_collate ragged_batch = Raise ValueError /\
  ~ (exists v, numpy_collate ragged_batch = Ok v).
Proof.
  split; [discriminate|].
  split; [reflexivity|].
  intros [v Hv]. discriminate Hv.
Qed.

(** C9.  With any recursion budget above the nesting depth of the batch,
    [numpy_collate] finishes (with a value or an exception, never by running
    out of budget), and the outcome does not depend on the budget; every
    sequence the recursive calls are applied to is strictly less nested than
    the batch. *)
Theorem numpy_collate_terminates
        (batch : list value) (fuel : nat) (Hfuel : batch_depth batch < fuel) :
  (exists r, numpy_collate_fuel fuel batch = Some r /\ r = numpy_collate batch) /\
  (forall transposed samples,
      zip_star batch = Ok transposed ->
      In samples transposed ->
      batch_depth samples < batch_depth batch).
Proof.
  split.
  - exists (numpy_collate batch). split; [|reflexivity].
    apply numpy_collate_fuel_enough; exact Hfuel.
  - intros transposed samples Hz Hin.
    exact (@zip_star_depth _ _ _ Hz Hin).
Qed.

Lemma numpy_collate_terminates_witness :
  batch_depth item_batch < 3 /\
  exists r, numpy_collate_fuel 3 item_batch = Some r /\ r = numpy_collate item_batch.
Proof.
  assert (H : batch_depth item_batch < 3) by (simpl; lia).
  split; [exact H|].
  exact (proj1 (numpy_collate_terminates item_batch H)).
Defined.

End CollateFacts.

(* ================================================================== *)
(** * Properties of the sampler and of the loader *)

Lemma rotate_Permutation (r : nat) (x : list nat) : Permutation x (rotate r x).
Proof.
  unfold rotate.
  rewrite <- (firstn_skipn (r mod length x) x) at 1.
  apply Permutation_app_comm.
Qed.

(** The path generator: splitting extends the path, so that keys are never
    handed out twice. *)
#[global] Instance path_prng : PRNG path_key := {|
  split_at := fun k _ i => i :: k;
  permutation := fun k x => rotate (list_sum k + length k) x;
  permutation_shuffles := fun k x => rotate_Permutation (list_sum k + length k) x;
  normal_at := fun k i => INR (list_sum k + i)
|}.

Lemma path_prng_injective : @split_injective path_key path_prng.
Proof.
  intros k k' i i' _ _ E. simpl in E. inversion E. split; reflexivity.
Qed.

Lemma path_prng_acyclic : @split_acyclic path_key path_prng.
Proof.
  intros k n E.
  assert (Hlen : forall m, length (Nat.iter m (fun k' : path_key => fst (split_pair k')) k)
                           = m + length k).
  { induction m as [|m IH]; [reflexivity|].
    rewrite Nat.iter_succ. unfold split_pair at 1. cbn [fst split_at path_prng length].
    rewrite IH. reflexivity. }
  specialize (Hlen (S n)). rewrite E in Hlen. lia.
Qed.






Section SamplerFacts.
Context {key : Type} `{PRNG key}.


Lemma stored_key_add (k0 : key) (i n : nat) :
  stored_key k0 (n + i) = Nat.iter n (fun k => fst (split_pair k)) (stored_key k0 i).
Proof.
  unfold stored_key. apply Nat.iter_add.
Qed.


(** With a generator that never hands out a key twice, which takes
    unboundedly many keys, no two epochs draw from the same key. *)
Lemma epoch_key_lt_distinct (k0 : key) (i j : nat) :
  split_injective -> split_acyclic ->
  i < j -> epoch_key k0 i <> epoch_key k0 j.
Proof.
  intros Hinj Hacyc Hij E.
  unfold epoch_key, split_pair in E. cbn [snd] in E.
  apply Hinj in E as [E _]; [|lia|lia].
  replace j with (S (j - i - 1) + i) in E by lia.
  rewrite stored_key_add in E.
  exact (Hacyc (stored_key k0 i) (j - i - 1) (eq_sym E)).
Qed.

(** C2.  One pass over a sampler that holds a key yields exactly [n] indices,
    [n] being the length of the data source, and they are a permutation of
    [0, ..., n-1]: each of these integers occurs exactly once and nothing
    else occurs. *)
Theorem sampler_iter_permutation
        (self : JAXRandomSampler key) (k : key) (Hk : rng_key self = Some k) :
  exists self' indices,
    sampler_iter self = Ok (self', indices) /\
    length indices = sampler_len self /\
    Permutation (seq 0 (sampler_len self)) indices /\
    (forall i, i < sampler_len self -> count_occ Nat.eq_dec indices i = 1) /\
    (forall i, In i indices -> i < sampler_len self).
Proof.
  unfold sampler_iter. rewrite Hk. cbn [split_pair].
  eexists _, _. split; [reflexivity|].
  set (n := sampler_len self).
  pose proof (permutation_shuffles (split_at k 2 1) (arange n)) as HP.
  unfold arange in *.
  split; [rewrite <- (Permutation_length HP); apply length_seq|].
  split; [exact HP|].
  split.
  - intros i Hi.
    pose proof (proj1 (Permutation_count_occ Nat.eq_dec _ _) HP i) as Hc.
    rewrite <- Hc.
    apply NoDup_count_occ'; [apply seq_NoDup | apply in_seq; lia].
  - intros i Hi.
    apply (Permutation_in _ (Permutation_sym HP)) in Hi.
    apply in_seq in Hi. lia.
Qed.



(** C10.  Without shuffling the key plays no part: whatever it is, the
    loader is the same object, its sampler is the sequential one over the
    dataset, and every run of epochs yields the same batches in the same
    order. *)
Theorem NumpyLoader_key_unused_without_shuffle
        (dataset : list value) (k1 k2 : option key) (batch_size : nat)
        (kw : kwargs) :
  NumpyLoader dataset k1 batch_size false kw
  = NumpyLoader dataset k2 batch_size false kw /\
  (forall L, NumpyLoader dataset k1 batch_size false kw = Ok L ->
             loader_sampler L = SequentialSampler dataset) /\
  (forall m,
      (L <- NumpyLoader dataset k1 batch_size false kw ;; loader_epochs m L)
      = (L <- NumpyLoader dataset k2 batch_size false kw ;; loader_epochs m L)).
Proof.
  split; [reflexivity|].
  split; [|reflexivity].
  intros L. unfold NumpyLoader, DataLoader_init.
  destruct batch_size; [discriminate|].
  intros E; inversion E; reflexivity.
Qed.

End SamplerFacts.

Lemma NumpyLoader_key_unused_without_shuffle_witness :
  (L <- @NumpyLoader _ demo_dataset (Some [7]) 2 false demo_kwargs ;;
   @loader_epochs _ path_prng 2 L)
  = (L <- @NumpyLoader _ demo_dataset None 2 false demo_kwargs ;;
     @loader_epochs _ path_prng 2 L) /\
  (L <- @NumpyLoader _ demo_dataset None 2 false demo_kwargs ;;
   @loader_epochs _ path_prng 2 L)
  = Ok [[ndarray [2] [10; 20]%Z; ndarray [1] [30]%Z];
        [ndarray [2] [10; 20]%Z; ndarray [1] [30]%Z]].
Proof.
  split; [|reflexivity].
  exact (proj2 (proj2 (@NumpyLoader_key_unused_without_shuffle _ path_prng
                         demo_dataset (Some [7]) None 2 demo_kwargs)) 2).
Defined.

(** With shuffling the key does matter: two keys, two orders. *)
Lemma NumpyLoader_key_used_with_shuffle :
  (L <- @NumpyLoader _ demo_dataset (Some [7]) 2 true demo_kwargs ;;
   @loader_epochs _ path_prng 1 L)
  = Ok [[ndarray [2] [20; 30]%Z; ndarray [1] [10]%Z]] /\
  (L <- @NumpyLoader _ demo_dataset (Some [8]) 2 true demo_kwargs ;;
   @loader_epochs _ path_prng 1 L)
  = Ok [[ndarray [2] [30; 10]%Z; ndarray [1] [20]%Z]].
Proof.
  split; reflexivity.
Qed.

Lemma sampler_iter_permutation_witness :
  rng_key demo_sampler = Some [7] /\
  exists self' indices,
    sampler_iter demo_sampler = Ok (self', indices) /\
    length indices = 3 /\
    Permutation [0; 1; 2] indices /\
    (forall i, i < 3 -> count_occ Nat.eq_dec indices i = 1) /\
    (forall i, In i indices -> i < 3).
Proof.
  split; [reflexivity|].
  exact (@sampler_iter_permutation _ path_prng demo_sampler [7] eq_refl).
Defined.



(* ================================================================== *)
(** * Properties of the network *)

Import Net.

Lemma nth_combine_lt {A B : Type} (l : list A) (l' : list B) (da : A) (db : B) :
  forall i, i < length l -> i < length l' ->
  nth i (combine l l') (da, db) = (nth i l da, nth i l' db).
Proof.
  revert l'; induction l as [|x r IH]; intros l' i Hi Hi'; simpl in *; [lia|].
  destruct l' as [|y r']; simpl in *; [lia|].
  destruct i; [reflexivity | apply IH; lia].
Qed.

Lemma length_removelast_pred {A : Type} (l : list A) :
  length (removelast l) = length l - 1.
Proof.
  induction l as [|x r IH]; [reflexivity|].
  destruct r as [|y r']; [reflexivity|].
  change (removelast (x :: y :: r')) with (x :: removelast (y :: r')).
  simpl length in *. rewrite IH. lia.
Qed.

Lemma nth_removelast_lt {A : Type} (l : list A) (d : A) :
  forall i, i < length l - 1 -> nth i (removelast l) d = nth i l d.
Proof.
  induction l as [|x r IH]; intros i Hi; [reflexivity|].
  destruct r as [|y r']; [simpl in Hi; lia|].
  change (removelast (x :: y :: r')) with (x :: removelast (y :: r')).
  destruct i; [reflexivity|].
  simpl nth. apply IH. simpl in *. lia.
Qed.

Lemma nth_tl {A : Type} (l : list A) (d : A) (i : nat) :
  nth i (tl l) d = nth (S i) l d.
Proof. destruct l; [destruct i|]; reflexivity. Qed.

Lemma length_tl_pred {A : Type} (l : list A) : length (tl l) = length l - 1.
Proof. destruct l; simpl; lia. Qed.

Section InitFacts.
Context {key : Type} `{PRNG key}.

Lemma length_split (k : key) (num : nat) : length (split k num) = num.
Proof. unfold split. rewrite length_map, length_seq. reflexivity. Qed.

Lemma nth_split (k d : key) (num i : nat) :
  i < num -> nth i (split k num) d = split_at k num i.
Proof.
  intros Hi. unfold split.
  rewrite (nth_indep _ d (split_at k num 0)) by (rewrite length_map, length_seq; exact Hi).
  rewrite (map_nth (split_at k num) (seq 0 num) 0 i).
  rewrite seq_nth by exact Hi. reflexivity.
Qed.

(** C6.  For a list of [L >= 1] sizes, [init_network_params] returns [L - 1]
    pairs; pair [i] is [random_layer_params] applied to [sizes[i]],
    [sizes[i+1]] and row [i] of the split of the input key into [L] keys: a
    weight of shape [(sizes[i+1], sizes[i])] and a bias of shape
    [(sizes[i+1],)], each [1e-2] times the normal samples drawn under one
    half of that row. *)
Theorem init_network_params_layers
        (sizes : list nat) (k : key) (HL : 1 <= length sizes) :
  length (init_network_params sizes k) = length sizes - 1 /\
  forall i, i < length sizes - 1 ->
    exists w b,
      nth_error (init_network_params sizes k) i = Some (w, b) /\
      (w, b) = random_layer_params (nth i sizes 0) (nth (S i) sizes 0)
                                   (split_at k (length sizes) i) default_scale /\
      nth_error (split k (length sizes)) i = Some (split_at k (length sizes) i) /\
      shape w = [nth (S i) sizes 0; nth i sizes 0] /\
      shape b = [nth (S i) sizes 0] /\
      w = scale (1 / 100)
                (normal (fst (split_pair (split_at k (length sizes) i)))
                        [nth (S i) sizes 0; nth i sizes 0]) /\
      b = scale (1 / 100)
                (normal (snd (split_pair (split_at k (length sizes) i)))
                        [nth (S i) sizes 0]).
Proof.
  assert (Hlen : length (combine (combine (removelast sizes) (tl sizes))
                                 (split k (length sizes))) = length sizes - 1).
  { rewrite !length_combine, length_removelast_pred, length_tl_pred, length_split. lia. }
  split.
  { unfold init_network_params. rewrite length_map. exact Hlen. }
  intros i Hi.
  set (ki := split_at k (length sizes) i).
  exists (scale default_scale (normal (fst (split_pair ki)) [nth (S i) sizes 0; nth i sizes 0])),
         (scale default_scale (normal (snd (split_pair ki)) [nth (S i) sizes 0])).
  split.
  { unfold init_network_params.
    rewrite nth_error_map.
    rewrite (nth_error_nth' _ (0, 0, k)) by (rewrite Hlen; exact Hi).
    rewrite nth_combine_lt
      by (rewrite ?length_combine, ?length_removelast_pred, ?length_tl_pred,
                  ?length_split; lia).
    rewrite nth_combine_lt
      by (rewrite ?length_removelast_pred, ?length_tl_pred; lia).
    rewrite nth_removelast_lt by exact Hi.
    rewrite nth_tl, nth_split by lia.
    reflexivity. }
  split; [reflexivity|].
  split.
  { rewrite (nth_error_nth' _ k) by (rewrite length_split; lia).
    rewrite nth_split by lia. reflexivity. }
  repeat split; reflexivity.
Qed.

End InitFacts.

Lemma init_network_params_layers_witness :
  1 <= length [4; 3; 2] /\
  length (@init_network_params _ path_prng [4; 3; 2] [7]) = 2 /\
  forall i, i < 2 ->
    exists w b,
      nth_error (@init_network_params _ path_prng [4; 3; 2] [7]) i = Some (w, b) /\
      shape w = [nth (S i) [4; 3; 2] 0; nth i [4; 3; 2] 0] /\
      shape b = [nth (S i) [4; 3; 2] 0].
Proof.
  assert (HL : 1 <= length [4; 3; 2]) by (simpl; lia).
  split; [exact HL|].
  destruct (@init_network_params_layers _ path_prng [4; 3; 2] [7] HL) as [Hlen Hlayers].
  split; [exact Hlen|].
  intros i Hi.
  destruct (Hlayers i Hi) as [w [b [Hnth [_ [_ [Hw [Hb _]]]]]]].
  exists w, b. repeat split; assumption.
Defined.

(* ------------------------------------------------------------------ *)
(** ** The loss *)

Section LossFacts.
Local Open Scope R_scope.

Lemma sum_app (l l' : list R) : sum (l ++ l') = sum l + sum l'.
Proof.
  induction l as [|x r IH]; simpl; [lra | rewrite IH; lra].
Qed.

Lemma sum_map_opp {A : Type} (g : A -> R) (l : list A) :
  sum (map (fun x => - g x) l) = - sum (map g l).
Proof.
  induction l as [|x r IH]; simpl; [lra | rewrite IH; lra].
Qed.

Lemma map2_app {A B C : Type} (f : A -> B -> C) (l1 l2 : list A) (l1' l2' : list B) :
  length l1 = length l1' ->
  map2 f (l1 ++ l2) (l1' ++ l2') = map2 f l1 l1' ++ map2 f l2 l2'.
Proof.
  revert l1'; induction l1 as [|x r IH]; intros [|y r'] Hlen; simpl in *;
    try discriminate; [reflexivity|].
  rewrite IH by congruence. reflexivity.
Qed.

Lemma length_map2 {A B C : Type} (f : A -> B -> C) (l : list A) (l' : list B) :
  length l = length l' -> length (map2 f l l') = length l.
Proof.
  revert l'; induction l as [|x r IH]; intros [|y r'] Hlen; simpl in *;
    try discriminate; [reflexivity|].
  rewrite IH by congruence. reflexivity.
Qed.

Lemma length_one_hot_row (k y : nat) : length (one_hot_row k y) = k.
Proof. unfold one_hot_row. rewrite length_map, length_seq. reflexivity. Qed.

Lemma length_one_hot_data (k : nat) (labels : list nat) :
  length (concat (map (one_hot_row k) labels)) = (length labels * k)%nat.
Proof.
  induction labels as [|y r IH]; [reflexivity|].
  cbn [map concat]. rewrite length_app, length_one_hot_row, IH. reflexivity.
Qed.

(** A one-hot row picks the entry of the true class. *)
Lemma one_hot_picks_from (f : R -> R) (y : nat) (row : list R) :
  forall s,
  sum (map2 Rmult (map f row)
            (map (fun j => if y =? j then 1 else 0) (seq s (length row))))
  = if ((s <=? y) && (y <? s + length row))%nat
    then f (nth (y - s) row 0) else 0.
Proof.
  induction row as [|x r IH]; intros s.
  - simpl. destruct (s <=? y)%nat eqn:E1; simpl; [|reflexivity].
    destruct (y <? s + 0)%nat eqn:E2; [|reflexivity].
    apply Nat.leb_le in E1. apply Nat.ltb_lt in E2. lia.
  - cbn [length seq map map2 sum fold_right].
    fold (sum (map2 Rmult (map f r)
                    (map (fun j => if y =? j then 1 else 0) (seq (S s) (length r))))).
    rewrite IH.
    destruct (Nat.eqb_spec y s) as [->|Hne].
    + rewrite Nat.leb_refl.
      replace (s <? s + S (length r))%nat with true
        by (symmetry; apply Nat.ltb_lt; lia).
      replace (S s <=? s)%nat with false
        by (symmetry; apply Nat.leb_gt; lia).
      rewrite Nat.sub_diag. simpl. lra.
    + destruct (Nat.leb_spec (S s) y) as [Hle|Hgt].
      * replace (s <=? y)%nat with true by (symmetry; apply Nat.leb_le; lia).
        replace (s + S (length r))%nat with (S s + length r)%nat by lia.
        destruct (y <? S s + length r)%nat; simpl; [|lra].
        replace (y - s)%nat with (S (y - S s)) by lia. simpl. lra.
      * replace (s <=? y)%nat with false by (symmetry; apply Nat.leb_gt; lia).
        simpl. lra.
Qed.

Lemma one_hot_picks (f : R -> R) (k y : nat) (row : list R) :
  length row = k -> (y < k)%nat ->
  sum (map2 Rmult (map f row) (one_hot_row k y)) = f (nth y row 0).
Proof.
  intros Hlen Hy. unfold one_hot_row. subst k.
  rewrite one_hot_picks_from.
  replace (0 <=? y)%nat with true by (symmetry; apply Nat.leb_le; lia).
  replace (y <? 0 + length row)%nat with true by (symmetry; apply Nat.ltb_lt; lia).
  rewrite Nat.sub_0_r. reflexivity.
Qed.

Lemma sum_one_hot_rows (c : R) (k : nat) (labels : list nat) :
  Forall (fun y => (y < k)%nat) labels ->
  forall d : list R,
  length d = (length labels * k)%nat ->
  sum (map2 Rmult (map (fun x => x - c) d) (concat (map (one_hot_row k) labels)))
  = sum (map (fun rl => nth (snd rl) (fst rl) 0 - c)
             (combine (chunks (length labels) k d) labels)).
Proof.
  induction 1 as [|y ys Hy _ IH]; intros d Hd.
  - simpl in Hd. apply length_zero_iff_nil in Hd. subst d. reflexivity.
  - cbn [length chunks combine map concat sum fold_right].
    fold (sum (map (fun rl => nth (snd rl) (fst rl) 0 - c)
                   (combine (chunks (length ys) k (skipn k d)) ys))).
    simpl in Hd.
    rewrite <- (firstn_skipn k d) at 1.
    rewrite map_app.
    rewrite map2_app
      by (rewrite length_map, length_one_hot_row; apply firstn_length_le; lia).
    rewrite sum_app.
    rewrite one_hot_picks by (try apply firstn_length_le; lia).
    rewrite IH by (rewrite length_skipn; lia).
    reflexivity.
Qed.

(** The value of [loss] on one-hot targets, in terms of the logits. *)
Lemma loss_one_hot_eq (params : list (array * array)) (images logits : array)
      (labels : list nat) (b k : nat) :
  batched_forward params images = Ok logits ->
  shape logits = [b; k] ->
  length (data logits) = (b * k)%nat ->
  length labels = b ->
  Forall (fun y => (y < k)%nat) labels ->
  loss params images (one_hot labels k)
  = Ok (sum (map (fun rl => logsumexp logits - nth (snd rl) (fst rl) 0)
                 (combine (chunks b k (data logits)) labels))
        / INR (b * k)).
Proof.
  intros Hfw Hshape Hdata Hlabels Hclass.
  unfold loss. rewrite Hfw. cbn [bind].
  unfold mul, zip_with, sub_scalar, one_hot. cbn [shape data].
  rewrite Hshape, Hlabels.
  unfold shape_eqb. destruct (list_eq_dec Nat.eq_dec [b; k] [b; k]); [|congruence].
  cbn [bind]. f_equal.
  unfold mean. cbn [data].
  rewrite length_map2
    by (rewrite length_map, length_one_hot_data, Hdata, Hlabels; reflexivity).
  rewrite length_map, Hdata.
  subst b.
  rewrite sum_one_hot_rows by assumption.
  set (c := logsumexp logits).
  rewrite (map_ext (fun rl : list R * nat => c - nth (snd rl) (fst rl) 0)
                   (fun rl => - (nth (snd rl) (fst rl) 0 - c)))
    by (intros rl; ring).
  rewrite sum_map_opp. unfold Rdiv. ring.
Qed.

Lemma zero_forward : batched_forward zero_params zero_image = Ok zero_logits.
Proof.
  unfold batched_forward, vmap, zero_logits. simpl.
  unfold add, zip_with, dotp. simpl.
  replace (0 * 0 + 0 + 0) with 0 by ring. reflexivity.
Qed.

Lemma two_zero_forward :
  batched_forward zero_params two_zero_images = Ok two_zero_logits.
Proof.
  unfold batched_forward, vmap, two_zero_logits. simpl.
  unfold add, zip_with, dotp. simpl.
  replace (0 * 0 + 0 + 0) with 0 by ring. reflexivity.
Qed.

Lemma ln_2_pos : 0 < ln 2.
Proof. pose proof ln_lt_2. lra. Qed.

(** C1, as the code has it.  On one-hot targets over [k] classes and logits
    of shape [(b, k)], [loss] is the sum over the rows of (the normaliser
    [logsumexp(logits)] minus the logit of the true class of the row),
    divided by the number [b * k] of entries: [jnp.mean] averages over all
    the entries of [preds * targets], not over the rows. *)
Theorem loss_on_one_hot_targets
        (params : list (array * array)) (images logits : array)
        (labels : list nat) (b k : nat)
        (Hforward : batched_forward params images = Ok logits)
        (Hshape : shape logits = [b; k])
        (Hdata : length (data logits) = (b * k)%nat)
        (Hlabels : length labels = b)
        (Hclasses : Forall (fun y => (y < k)%nat) labels) :
  loss params images (one_hot labels k)
  = Ok (sum (map (fun rl => logsumexp logits - nth (snd rl) (fst rl) 0)
                 (combine (chunks b k (data logits)) labels))
        / INR (b * k)).
Proof.
  apply loss_one_hot_eq; assumption.
Qed.

Lemma loss_on_one_hot_targets_witness :
  batched_forward zero_params zero_image = Ok zero_logits /\
  shape zero_logits = [1; 2]%nat /\
  length (data zero_logits) = (1 * 2)%nat /\
  length [0%nat] = 1%nat /\
  Forall (fun y => (y < 2)%nat) [0%nat] /\
  loss zero_params zero_image (one_hot [0%nat] 2)
  = Ok (sum (map (fun rl => logsumexp zero_logits - nth (snd rl) (fst rl) 0)
                 (combine (chunks 1 2 (data zero_logits)) [0%nat]))
        / INR (1 * 2)).
Proof.
  assert (Hc : Forall (fun y => (y < 2)%nat) [0%nat]) by (repeat constructor).
  split; [exact zero_forward|].
  split; [reflexivity|].
  split; [reflexivity|].
  split; [reflexivity|].
  split; [exact Hc|].
  exact (@loss_on_one_hot_targets zero_params zero_image zero_logits [0%nat] 1 2
           zero_forward eq_refl eq_refl eq_refl Hc).
Defined.

(** C1 as stated fails.  One example, two classes, all logits zero: [loss]
    returns [ln 2 / 2], the mean over the rows of the softmax cross-entropy
    is [ln 2]. *)
Lemma loss_is_not_mean_cross_entropy :
  batched_forward zero_params zero_image = Ok zero_logits /\
  loss zero_params zero_image (one_hot [0%nat] 2) = Ok (ln 2 / 2) /\
  mean_softmax_cross_entropy zero_logits [0%nat] = ln 2 /\
  ln 2 / 2 <> ln 2.
Proof.
  split; [exact zero_forward|].
  split.
  { rewrite (@loss_one_hot_eq zero_params zero_image zero_logits [0%nat] 1 2
               zero_forward eq_refl eq_refl eq_refl)
      by (repeat constructor).
    f_equal. unfold logsumexp. simpl. rewrite exp_0.
    replace (1 + (1 + 0)) with 2 by ring. lra. }
  split.
  { unfold mean_softmax_cross_entropy, row_cross_entropy. simpl. rewrite exp_0.
    replace (1 + (1 + 0)) with 2 by ring. lra. }
  pose proof ln_2_pos. lra.
Qed.

(** With more than one example the normaliser spans the whole batch: on two
    examples with all logits zero it is [ln 4], whereas each row has
    logsumexp [ln 2]; [loss] is [ln 4 / 2], the mean cross-entropy divided by
    the number of classes is [ln 2 / 2]. *)
Lemma loss_normaliser_spans_batch :
  batched_forward zero_params two_zero_images = Ok two_zero_logits /\
  logsumexp two_zero_logits = ln 4 /\
  loss zero_params two_zero_images (one_hot [0%nat; 1%nat] 2) = Ok (ln 4 / 2) /\
  mean_softmax_cross_entropy two_zero_logits [0%nat; 1%nat] / 2 = ln 2 / 2.
Proof.
  assert (Hl : logsumexp two_zero_logits = ln 4).
  { unfold logsumexp. simpl. rewrite exp_0. f_equal. ring. }
  split; [exact two_zero_forward|].
  split; [exact Hl|].
  split.
  { rewrite (@loss_one_hot_eq zero_params two_zero_images two_zero_logits
               [0%nat; 1%nat] 2 2 two_zero_forward eq_refl eq_refl eq_refl)
      by (repeat constructor).
    f_equal. rewrite Hl. simpl. lra. }
  unfold mean_softmax_cross_entropy, row_cross_entropy. simpl. rewrite exp_0.
  replace (1 + (1 + 0)) with 2 by ring. lra.
Qed.

End LossFacts.

(* ------------------------------------------------------------------ *)
(** ** Gradient descent *)

Section TreeFacts.
Local Open Scope R_scope.

Lemma pytree_nested_ind (P : pytree -> Prop) :
  (forall a, P (Leaf a)) ->
  (forall cs, Forall P cs -> P (TupleNode cs)) ->
  (forall cs, Forall P cs -> P (ListNode cs)) ->
  forall t, P t.
Proof.
  intros HLeaf HTuple HList.
  fix IH 1. intros [a|cs|cs].
  - apply HLeaf.
  - apply HTuple. induction cs as [|c r IHr]; constructor; [apply IH | exact IHr].
  - apply HList. induction cs as [|c r IHr]; constructor; [apply IH | exact IHr].
Qed.

Lemma flatten_children_same (ts : list pytree) :
  Forall (fun t => forall r, structure r = structure t ->
                             flatten_up_to t r = Ok (map Leaf (leaves r))) ts ->
  forall rs, map structure rs = map structure ts ->
  flatten_children ts rs = Ok (map Leaf (flat_map leaves rs)).
Proof.
  induction 1 as [|t ts' Ht _ IH]; intros [|r rs'] Hs; simpl in Hs;
    try discriminate; [reflexivity|].
  inversion Hs as [[Hr Hrs]].
  cbn [flatten_children flat_map].
  rewrite (Ht r Hr), (IH rs' Hrs). cbn [bind].
  rewrite map_app. reflexivity.
Qed.

(** A tree of the structure of [t] flattens, up to [t], into its leaves. *)
Lemma flatten_up_to_same (t : pytree) :
  forall r, structure r = structure t ->
  flatten_up_to t r = Ok (map Leaf (leaves r)).
Proof.
  induction t as [a|ts IH|ts IH] using pytree_nested_ind; intros r Hs.
  - destruct r; simpl in Hs; try discriminate. reflexivity.
  - destruct r as [|rs|]; simpl in Hs; try discriminate.
    inversion Hs as [Hm].
    change (flatten_up_to (TupleNode ts) (TupleNode rs)) with (flatten_children ts rs).
    apply flatten_children_same; assumption.
  - destruct r as [| |rs]; simpl in Hs; try discriminate.
    inversion Hs as [Hm].
    change (flatten_up_to (ListNode ts) (ListNode rs)) with (flatten_children ts rs).
    apply flatten_children_same; assumption.
Qed.

Lemma firstn_plus {A : Type} (n m : nat) :
  forall l : list A, firstn (n + m) l = firstn n l ++ firstn m (skipn n l).
Proof.
  induction n as [|n IH]; intros [|x r]; simpl; try reflexivity.
  - rewrite firstn_nil. reflexivity.
  - rewrite IH. reflexivity.
Qed.

Lemma unflatten_children_ok (ts : list pytree) :
  Forall unflatten_spec ts ->
  forall xs, (length (flat_map leaves ts) <= length xs)%nat ->
    map structure (fst (unflatten_children ts xs)) = map structure ts /\
    flat_map leaves (fst (unflatten_children ts xs))
    = firstn (length (flat_map leaves ts)) xs /\
    snd (unflatten_children ts xs) = skipn (length (flat_map leaves ts)) xs.
Proof.
  induction 1 as [|t ts' Ht _ IH]; intros xs Hlen.
  - simpl. repeat split; reflexivity.
  - cbn [flat_map] in *. rewrite length_app in *.
    cbn [unflatten_children fst snd map flat_map].
    destruct (Ht xs) as [Hs [Hl Hr]]; [lia|].
    rewrite Hr.
    destruct (IH (skipn (length (leaves t)) xs)) as [Hs' [Hl' Hr']];
      [rewrite length_skipn; lia|].
    rewrite Hs, Hs', Hl, Hl', Hr'.
    repeat split.
    + rewrite firstn_plus. reflexivity.
    + rewrite skipn_skipn. f_equal. lia.
Qed.

(** Unflattening gives back the structure and uses the leaves in order. *)
Lemma unflatten_from_ok (t : pytree) : unflatten_spec t.
Proof.
  induction t as [a|ts IH|ts IH] using pytree_nested_ind; intros xs Hlen.
  - simpl in *. destruct xs as [|x xs']; simpl in *; [lia|].
    repeat split; reflexivity.
  - change (unflatten_from (TupleNode ts) xs)
      with (TupleNode (fst (unflatten_children ts xs)), snd (unflatten_children ts xs)).
    destruct (unflatten_children_ok IH xs Hlen) as [Hs [Hl Hr]].
    cbn [fst snd structure leaves]. rewrite Hs, Hl, Hr.
    repeat split; reflexivity.
  - change (unflatten_from (ListNode ts) xs)
      with (ListNode (fst (unflatten_children ts xs)), snd (unflatten_children ts xs)).
    destruct (unflatten_children_ok IH xs Hlen) as [Hs [Hl Hr]].
    cbn [fst snd structure leaves]. rewrite Hs, Hl, Hr.
    repeat split; reflexivity.
Qed.

Lemma sgd_leaves (lr : R) (ps : list array) :
  forall gs, map shape gs = map shape ps ->
  mapM (fun pg : array * pytree =>
          match snd pg with
          | Leaf g' => sub (fst pg) (scale lr g')
          | _ => Raise TypeError
          end)
       (combine ps (map Leaf gs))
  = Ok (map2 (sgd_leaf lr) ps gs).
Proof.
  induction ps as [|p ps' IH]; intros [|g gs'] Hs; simpl in Hs;
    try discriminate; [reflexivity|].
  inversion Hs as [[Hg Hgs]].
  cbn [map combine mapM fst snd map2].
  rewrite (IH gs' Hgs).
  unfold sub, zip_with, scale. cbn [shape data].
  rewrite Hg. unfold shape_eqb.
  destruct (list_eq_dec Nat.eq_dec (shape p) (shape p)); [|congruence].
  reflexivity.
Qed.

Lemma length_map2_min {A B C : Type} (f : A -> B -> C) (l : list A) (l' : list B) :
  length (map2 f l l') = Nat.min (length l) (length l').
Proof.
  revert l'; induction l as [|x r IH]; intros [|y r']; simpl; auto.
Qed.

Context `{Autodiff}.

(** C4.  When [grad(loss)] returns the gradient tree [grads],
    [sgd_update] returns a tree of the structure of [params] whose leaves
    are, in order, [p - lr * g] for the leaf [p] of [params] and the leaf [g]
    of [grads] at the same place; every leaf keeps its shape, and nothing
    but [p], [lr] and [g] enters a leaf of the result. *)
Theorem sgd_update_leaves
        (params : pytree) (x y : array) (lr : R) (grads : pytree)
        (Hgrad : grad (fun p => layers <- as_layers p ;; loss layers x y) params
                 = Ok grads) :
  exists new,
    sgd_update params x y lr = Ok new /\
    structure new = structure params /\
    length (leaves grads) = length (leaves params) /\
    leaves new = map2 (sgd_leaf lr) (leaves params) (leaves grads) /\
    map shape (leaves new) = map shape (leaves params).
Proof.
  destruct (grad_like _ _ Hgrad) as [Hstruct Hshapes].
  assert (Hlen : length (leaves grads) = length (leaves params)).
  { rewrite <- (length_map shape (leaves grads)), Hshapes. apply length_map. }
  unfold sgd_update. rewrite Hgrad. cbn [bind].
  unfold tree_map.
  rewrite (flatten_up_to_same params grads Hstruct). cbn [bind].
  rewrite (sgd_leaves lr (leaves params) (leaves grads) Hshapes). cbn [bind].
  set (ys := map2 (sgd_leaf lr) (leaves params) (leaves grads)).
  assert (Hys : length ys = length (leaves params)).
  { unfold ys. rewrite length_map2_min, Hlen. apply Nat.min_id. }
  destruct (unflatten_from_ok params ys) as [Hs [Hl _]]; [lia|].
  eexists. split; [reflexivity|].
  split; [exact Hs|].
  split; [exact Hlen|].
  assert (Hleaves : leaves (fst (unflatten_from params ys)) = ys).
  { rewrite Hl, <- Hys. apply firstn_all. }
  split; [exact Hleaves|].
  rewrite Hleaves. unfold ys.
  clear - Hshapes.
  revert Hshapes. generalize (leaves grads) as gs. generalize (leaves params) as ps.
  induction ps as [|p ps' IH]; intros [|g gs'] Hsh; simpl in *;
    try discriminate; [reflexivity|].
  injection Hsh as Hg Hgs. f_equal. apply IH. exact Hgs.
Qed.

End TreeFacts.

(** The differentiation oracle of half the squared norm: the gradient at a
    tree is the tree itself. *)
#[global] Instance norm_grad : Autodiff := {|
  grad := fun _ t => Ok t;
  grad_like := fun f t g (E : Ok t = Ok g) =>
    match E in (_ = r) return
          match r with
          | Ok g' => structure g' = structure t /\
                     map shape (leaves g') = map shape (leaves t)
          | Raise _ => True
          end
    with eq_refl => conj eq_refl eq_refl end
|}.

Lemma sgd_update_leaves_witness :
  @grad norm_grad (fun p => layers <- as_layers p ;; loss layers zero_image zero_logits)
        demo_tree = Ok demo_tree /\
  exists new,
    @sgd_update norm_grad demo_tree zero_image zero_logits (1 / 2) = Ok new /\
    structure new = structure demo_tree /\
    length (leaves demo_tree) = length (leaves demo_tree) /\
    leaves new = map2 (sgd_leaf (1 / 2)) (leaves demo_tree) (leaves demo_tree) /\
    map shape (leaves new) = map shape (leaves demo_tree).
Proof.
  split; [reflexivity|].
  exact (@sgd_update_leaves norm_grad demo_tree zero_image zero_logits (1 / 2)
           demo_tree eq_refl).
Defined.

(* ------------------------------------------------------------------ *)
(** ** Evaluation *)

Section EvalFacts.
Local Open Scope R_scope.

Lemma length_chunks {A : Type} (n w : nat) :
  forall l : list A, length (chunks n w l) = n.
Proof.
  induction n as [|n IH]; intros l; simpl; [reflexivity | rewrite IH; reflexivity].
Qed.

Lemma correct_app (p p' y y' : list nat) :
  length p = length y ->
  correct (p ++ p') (y ++ y') = (correct p y + correct p' y')%nat.
Proof.
  revert y; induction p as [|a r IH]; intros [|b s] Hlen; simpl in *;
    try discriminate; [reflexivity|].
  injection Hlen as Hlen.
  rewrite (IH s Hlen). lia.
Qed.

Lemma correct_le (p y : list nat) : (correct p y <= length y)%nat.
Proof.
  revert y; induction p as [|a r IH]; intros [|b s]; simpl; try lia.
  specialize (IH s). destruct (a =? b)%nat; lia.
Qed.

(** Counting the entries of [predicted == y] that are true counts the
    examples predicted right. *)
Lemma count_true_correct (p y : list nat) :
  length (filter (fun e : bool => e)
                 (map (fun py => fst py =? snd py)%nat (combine p y)))
  = correct p y.
Proof.
  revert y; induction p as [|a r IH]; intros [|b s]; simpl; try reflexivity.
  rewrite <- (IH s). destruct (a =? b)%nat; reflexivity.
Qed.


Lemma fraction_bounds (c n : nat) :
  (c <= n)%nat -> (0 < n)%nat -> 0 <= INR c / INR n <= 1.
Proof.
  intros Hc Hn.
  assert (Hn' : 0 < INR n) by (apply lt_0_INR; exact Hn).
  assert (Hc' : INR c <= INR n) by (apply le_INR; exact Hc).
  assert (H0 : 0 <= INR c) by apply pos_INR.
  split.
  - apply Rmult_le_pos; [exact H0 | left; apply Rinv_0_lt_compat; exact Hn'].
  - apply (Rmult_le_reg_r (INR n)); [exact Hn'|].
    unfold Rdiv. rewrite Rmult_assoc, Rinv_l by lra. lra.
Qed.

End EvalFacts.

(* ================================================================== *)
(** * Further properties of the network *)

Section ForwardFacts.
Local Open Scope R_scope.

Lemma dot_fits (w x : array) (n m : nat) :
  shape w = [n; m] -> shape x = [m] ->
  exists y, dot w x = Ok y /\ shape y = [n] /\ length (data y) = n.
Proof.
  intros Hw Hx. unfold dot. rewrite Hw, Hx, Nat.eqb_refl.
  eexists. split; [reflexivity|]. cbn [shape data].
  split; [reflexivity|]. rewrite length_map. apply length_chunks.
Qed.

Lemma add_fits (y b : array) (n : nat) :
  shape y = [n] -> shape b = [n] ->
  length (data y) = n -> well_formed b ->
  exists z, add y b = Ok z /\ shape z = [n] /\ length (data z) = n.
Proof.
  intros Hy Hb Hly Hwb. unfold add, zip_with. rewrite Hy, Hb.
  unfold shape_eqb. destruct (list_eq_dec Nat.eq_dec [n] [n]); [|congruence].
  eexists. split; [reflexivity|]. cbn [shape data].
  split; [reflexivity|].
  rewrite length_map2; [exact Hly|].
  unfold well_formed in Hwb. rewrite Hb in Hwb. simpl in Hwb. lia.
Qed.

(** One affine layer [jnp.dot(w, x) + b] on an input of the right length. *)
Lemma layer_fits (w b x : array) (n m : nat) :
  shape w = [n; m] -> shape b = [n] -> well_formed b -> shape x = [m] ->
  exists z, (y <- dot w x ;; add y b) = Ok z /\ shape z = [n] /\ length (data z) = n.
Proof.
  intros Hw Hb Hwb Hx.
  destruct (@dot_fits w x n m Hw Hx) as [y [Hy [Hsy Hly]]].
  rewrite Hy. cbn [bind]. apply add_fits; assumption.
Qed.

Lemma hidden_layers_fit (layers : list (array * array)) :
  forall (n0 n : nat) (x : array),
  layers_fit n0 layers n -> shape x = [n0] ->
  exists x', hidden_layers layers x = Ok x' /\ shape x' = [n].
Proof.
  induction layers as [|[w b] rest IH]; intros n0 n x Hfit Hx.
  - simpl in Hfit. subst n. exists x. split; [reflexivity | exact Hx].
  - cbn [layers_fit] in Hfit.
    destruct Hfit as [n1 [Hw [Hb [_ [Hwb Hrest]]]]].
    destruct (@layer_fits w b x n1 n0 Hw Hb Hwb Hx) as [z [Hz [Hsz _]]].
    cbn [hidden_layers].
    destruct (dot w x) as [y|e]; [|discriminate]. cbn [bind] in Hz |- *.
    rewrite Hz. cbn [bind].
    apply (IH n1 n (relu z)); [exact Hrest | exact Hsz].
Qed.

Lemma layers_fit_app (ps : list (array * array)) (w b : array) :
  forall n0 nL,
  layers_fit n0 (ps ++ [(w, b)]) nL <->
  exists n, layers_fit n0 ps n /\ shape w = [nL; n] /\ shape b = [nL] /\
            well_formed w /\ well_formed b.
Proof.
  induction ps as [|[w' b'] rest IH]; intros n0 nL; cbn [app layers_fit].
  - split.
    + intros [n [Hw [Hb [Hww [Hwb Hn]]]]]. subst n.
      exists n0. repeat split; assumption.
    + intros [n [Hn [Hw [Hb [Hww Hwb]]]]]. subst n.
      exists nL. repeat split; assumption.
  - split.
    + intros [n1 [Hw' [Hb' [Hww' [Hwb' Hrest]]]]].
      apply IH in Hrest as [n [Hfit Hlast]].
      exists n. split; [|exact Hlast].
      exists n1. repeat split; assumption.
    + intros [n [[n1 [Hw' [Hb' [Hww' [Hwb' Hfit]]]]] Hlast]].
      exists n1. repeat split; try assumption.
      apply IH. exists n. split; assumption.
Qed.

Lemma nth_error_last {A : Type} (l : list A) (d : A) :
  l <> [] -> nth_error l (length l - 1) = Some (last l d).
Proof.
  intros Hne.
  rewrite (@app_removelast_last _ l d Hne) at 1 2.
  rewrite length_app, nth_error_app2 by (simpl; lia).
  replace (length (removelast l) + length [last l d] - 1 - length (removelast l))%nat
    with 0%nat by (simpl; lia).
  reflexivity.
Qed.

Lemma model_forward_fits
      (params : list (array * array)) (x : array) (n0 nL : nat) :
  layers_fit n0 params nL -> params <> [] -> shape x = [n0] ->
  exists logits,
    model_forward params x = Ok logits /\
    shape logits = [nL] /\ well_formed logits.
Proof.
  intros Hfit Hne Hx.
  unfold model_forward.
  rewrite (@nth_error_last _ params (zeros [], zeros []) Hne).
  rewrite (@app_removelast_last _ params (zeros [], zeros []) Hne) in Hfit.
  destruct (last params (zeros [], zeros [])) as [final_w final_b].
  apply layers_fit_app in Hfit as [n [Hhid [Hw [Hb [_ Hwb]]]]].
  destruct (@hidden_layers_fit _ n0 n x Hhid Hx) as [x' [Hx' Hsx']].
  rewrite Hx'. cbn [bind].
  destruct (@layer_fits final_w final_b x' nL n Hw Hb Hwb Hsx') as [z [Hz [Hsz Hlz]]].
  exists z. split; [exact Hz|]. split; [exact Hsz|].
  unfold well_formed. rewrite Hsz, Hlz. simpl. lia.
Qed.

(** X1.  On layers that chain from [n0] inputs to [nL] outputs, with at
    least one layer, [model_forward] returns, for every input vector of
    length [n0], a vector of [nL] logits. *)
Theorem model_forward_shape
        (params : list (array * array)) (x : array) (n0 nL : nat)
        (Hfit : layers_fit n0 params nL) (Hne : params <> [])
        (Hx : shape x = [n0]) :
  exists logits,
    model_forward params x = Ok logits /\
    shape logits = [nL] /\ well_formed logits.
Proof.
  apply (@model_forward_fits params x n0 nL); assumption.
Qed.

Lemma small_params_fit : layers_fit 3 small_params 2.
Proof.
  exists 2%nat. repeat split; reflexivity.
Qed.

Lemma model_forward_shape_witness :
  layers_fit 3 small_params 2 /\ small_params <> [] /\
  shape small_input = [3]%nat /\
  exists logits,
    model_forward small_params small_input = Ok logits /\
    shape logits = [2]%nat /\ well_formed logits.
Proof.
  assert (Hne : small_params <> []) by discriminate.
  split; [exact small_params_fit|]. split; [exact Hne|]. split; [reflexivity|].
  exact (@model_forward_shape small_params small_input 3 2
           small_params_fit Hne eq_refl).
Defined.

Lemma hidden_layers_no_IndexError (layers : list (array * array)) :
  forall x, hidden_layers layers x <> Raise IndexError.
Proof.
  induction layers as [|[w b] rest IH]; intros x; cbn [hidden_layers]; [discriminate|].
  unfold dot.
  destruct (shape w) as [|n [|m [|? ?]]]; try discriminate.
  destruct (shape x) as [|m' [|? ?]]; try discriminate.
  destruct (m =? m')%nat; [|discriminate]. cbn [bind].
  unfold add, zip_with. cbn [shape].
  destruct (shape_eqb _ _); [|discriminate]. cbn [bind]. apply IH.
Qed.

(** X2.  [model_forward] raises [IndexError] exactly when there is no layer,
    whatever the input; in particular on the parameters initialised from
    fewer than two sizes. *)
Theorem model_forward_IndexError
        (params : list (array * array)) (x : array) :
  (model_forward params x = Raise IndexError <-> params = []) /\
  (forall (key : Type) (G : PRNG key) (sizes : list nat) (k : key),
      (length sizes <= 1)%nat ->
      model_forward (init_network_params sizes k) x = Raise IndexError).
Proof.
  split.
  - split.
    + intros H. destruct params as [|wb rest] eqn:E; [reflexivity|]. exfalso.
      rewrite <- E in H. assert (Hne : params <> []) by (rewrite E; discriminate).
      unfold model_forward in H.
      rewrite (@nth_error_last _ params (zeros [], zeros []) Hne) in H.
      destruct (hidden_layers (removelast params) x) as [x'|e] eqn:Hh.
      * cbn [bind] in H.
        destruct (last params (zeros [], zeros [])) as [final_w final_b].
        unfold dot in H.
        destruct (shape final_w) as [|n [|m [|? ?]]]; try discriminate.
        destruct (shape x') as [|m' [|? ?]]; try discriminate.
        destruct (m =? m')%nat; [|discriminate]. cbn [bind] in H.
        unfold add, zip_with in H. cbn [shape] in H.
        destruct (shape_eqb _ _); discriminate.
      * cbn [bind] in H. inversion H; subst.
        exact (hidden_layers_no_IndexError _ _ Hh).
    + intros ->. reflexivity.
  - intros key G sizes k Hlen.
    destruct sizes as [|n [|m rest]]; [reflexivity | reflexivity | simpl in Hlen; lia].
Qed.

Lemma model_forward_IndexError_witness :
  (length [784%nat] <= 1)%nat /\
  model_forward (@init_network_params _ path_prng [784%nat] [7%nat]) small_input
  = Raise IndexError.
Proof.
  assert (Hlen : (length [784%nat] <= 1)%nat) by (simpl; lia).
  split; [exact Hlen|].
  exact (proj2 (model_forward_IndexError [] small_input) _ path_prng [784%nat] [7%nat] Hlen).
Defined.

End ForwardFacts.

Section InitForwardFacts.
Local Open Scope R_scope.
Context {key : Type} `{PRNG key}.

Lemma normal_well_formed (k : key) (c : R) (s : list nat) :
  well_formed (scale c (normal k s)).
Proof.
  unfold well_formed, scale, normal. cbn [shape data].
  rewrite !length_map, length_seq. reflexivity.
Qed.

Lemma init_layers_fit_keys (sizes : list nat) :
  forall keys : list key,
  sizes <> [] -> (length sizes - 1 <= length keys)%nat ->
  layers_fit (hd 0%nat sizes)
             (map (fun t => random_layer_params (fst (fst t)) (snd (fst t)) (snd t)
                                                default_scale)
                  (combine (combine (removelast sizes) (tl sizes)) keys))
             (last sizes 0%nat).
Proof.
  induction sizes as [|a rest IH]; intros keys Hne Hlen; [congruence|].
  destruct rest as [|b rest'].
  - reflexivity.
  - destruct keys as [|k0 keys']; [simpl in Hlen; lia|].
    change (removelast (a :: b :: rest')) with (a :: removelast (b :: rest')).
    change (last (a :: b :: rest') 0%nat) with (last (b :: rest') 0%nat).
    cbn [tl combine map fst snd hd layers_fit].
    unfold random_layer_params at 1. cbn [split_pair].
    exists b. split; [reflexivity|]. split; [reflexivity|].
    split; [apply normal_well_formed|]. split; [apply normal_well_formed|].
    apply (IH keys'); [discriminate | simpl in *; lia].
Qed.

Lemma init_layers_fit (sizes : list nat) (k : key) :
  sizes <> [] ->
  layers_fit (hd 0%nat sizes) (init_network_params sizes k) (last sizes 0%nat).
Proof.
  intros Hne. unfold init_network_params.
  apply init_layers_fit_keys; [exact Hne|].
  rewrite length_split. lia.
Qed.

(** X3.  The network initialised from at least two sizes takes vectors of
    length [sizes[0]] and gives [sizes[-1]] logits: the layers chain, and
    [model_forward] returns on every such input. *)
Theorem init_then_forward_shape
        (sizes : list nat) (k : key) (x : array)
        (HL : (2 <= length sizes)%nat)
        (Hx : shape x = [hd 0%nat sizes]) :
  layers_fit (hd 0%nat sizes) (init_network_params sizes k) (last sizes 0%nat) /\
  exists logits,
    model_forward (init_network_params sizes k) x = Ok logits /\
    shape logits = [last sizes 0%nat] /\ well_formed logits.
Proof.
  assert (Hne : sizes <> []) by (destruct sizes; [simpl in HL; lia | discriminate]).
  split; [apply init_layers_fit; exact Hne|].
  apply (@model_forward_fits _ x (hd 0%nat sizes) (last sizes 0%nat));
    [apply init_layers_fit; exact Hne | | exact Hx].
  intros E. apply (f_equal (@length _)) in E.
  unfold init_network_params in E.
  rewrite length_map, !length_combine, length_removelast_pred, length_tl_pred,
    length_split in E.
  simpl in E. lia.
Qed.

End InitForwardFacts.

Lemma init_then_forward_shape_witness :
  (2 <= length [3; 4; 2]%nat)%nat /\
  shape small_input = [hd 0%nat [3; 4; 2]%nat] /\
  exists logits,
    model_forward (@init_network_params _ path_prng [3; 4; 2]%nat [7%nat]) small_input
    = Ok logits /\
    shape logits = [2]%nat /\ well_formed logits.
Proof.
  assert (HL : (2 <= length [3; 4; 2]%nat)%nat) by (simpl; lia).
  split; [exact HL|]. split; [reflexivity|].
  exact (proj2 (@init_then_forward_shape _ path_prng [3; 4; 2]%nat [7%nat]
                  small_input HL eq_refl)).
Defined.

Section BatchedFacts.
Local Open Scope R_scope.

Lemma mapM_all_ok {A B : Type} (f : A -> result B) (Q : B -> Prop) (l : list A) :
  Forall (fun x => exists y, f x = Ok y /\ Q y) l ->
  exists ys, mapM f l = Ok ys /\ Forall Q ys /\ length ys = length l.
Proof.
  induction 1 as [|x r [y [Hy HQ]] _ [ys [Hys [HQs Hlen]]]].
  - exists []. repeat split; constructor.
  - exists (y :: ys). cbn [mapM]. rewrite Hy, Hys. cbn [bind].
    repeat split; [constructor; assumption | simpl; congruence].
Qed.

Lemma chunks_concat {A : Type} (w : nat) (ls : list (list A)) :
  Forall (fun l => length l = w) ls ->
  chunks (length ls) w (concat ls) = ls.
Proof.
  induction 1 as [|l r Hl _ IH]; [reflexivity|].
  cbn [length chunks concat].
  rewrite firstn_app, <- Hl, Nat.sub_diag, firstn_all, firstn_O, app_nil_r.
  rewrite skipn_app, Nat.sub_diag, skipn_all, skipn_O. cbn [app].
  rewrite Hl, IH. reflexivity.
Qed.

Lemma length_concat_const {A : Type} (w : nat) (ls : list (list A)) :
  Forall (fun l => length l = w) ls ->
  length (concat ls) = (length ls * w)%nat.
Proof.
  induction 1 as [|l r Hl _ IH]; [reflexivity|].
  cbn [concat length]. rewrite length_app, IH, Hl. reflexivity.
Qed.

Lemma rows_shapes (a : array) (b : nat) (rest : list nat) :
  shape a = b :: rest ->
  exists rs, rows a = Ok rs /\ length rs = b /\
             Forall (fun r => shape r = rest) rs.
Proof.
  intros Ha. unfold rows. rewrite Ha.
  eexists. split; [reflexivity|].
  split; [rewrite length_map; apply length_chunks|].
  apply Forall_forall. intros r Hr.
  apply in_map_iff in Hr as [d [<- _]]. reflexivity.
Qed.

Lemma batched_forward_fits
      (params : list (array * array)) (images : array) (b n0 nL : nat) :
  layers_fit n0 params nL -> params <> [] -> shape images = [b; n0] ->
  exists logits rs outs,
    batched_forward params images = Ok logits /\
    shape logits = [b; nL] /\ well_formed logits /\
    rows images = Ok rs /\
    mapM (model_forward params) rs = Ok outs /\
    rows logits = Ok outs.
Proof.
  intros Hfit Hne Himg.
  unfold batched_forward, vmap. rewrite Himg.
  destruct (@model_forward_fits params (zeros [n0]) n0 nL Hfit Hne eq_refl)
    as [traced [Ht [Hst _]]].
  rewrite Ht. cbn [bind].
  destruct (@rows_shapes images b [n0] Himg) as [rs [Hrs [Hlen Hshapes]]].
  rewrite Hrs. cbn [bind].
  destruct (@mapM_all_ok _ _ (model_forward params)
              (fun o => shape o = [nL] /\ well_formed o) rs) as [outs [Houts [HQ Hlo]]].
  { eapply Forall_impl; [|exact Hshapes].
    intros r Hr. apply (@model_forward_fits params r n0 nL); assumption. }
  rewrite Houts. cbn [bind].
  assert (Hdata : Forall (fun l => length l = nL) (map data outs)).
  { rewrite Forall_map. eapply Forall_impl; [|exact HQ].
    intros o [Hso Hwo]. unfold well_formed in Hwo. rewrite Hso in Hwo.
    simpl in Hwo. lia. }
  eexists _, rs, outs. split; [reflexivity|].
  cbn [shape data]. rewrite Hst, Hlo, Hlen.
  split; [reflexivity|].
  split.
  { unfold well_formed. cbn [shape data].
    rewrite (length_concat_const Hdata), length_map, Hlo, Hlen. simpl. lia. }
  split; [reflexivity|]. split; [exact Houts|].
  unfold rows. cbn [shape data]. f_equal.
  replace (prod_shape [nL]) with nL by (simpl; lia).
  rewrite <- Hlen, <- Hlo, <- (length_map data outs).
  rewrite (chunks_concat Hdata), map_map.
  clear - HQ. induction HQ as [|o r [Hso _] _ IH]; [reflexivity|].
  cbn [map]. rewrite IH. f_equal. destruct o as [so d]. cbn in *. congruence.
Qed.

(** X4.  On chaining layers and a batch of [b] input vectors,
    [batched_forward] returns a well-formed matrix of shape [(b, nL)] whose
    rows are, in order, the results of [model_forward] on the rows of the
    batch: the logits of an example do not depend on the other examples. *)
Theorem batched_forward_rows
        (params : list (array * array)) (images : array) (b n0 nL : nat)
        (Hfit : layers_fit n0 params nL) (Hne : params <> [])
        (Himages : shape images = [b; n0]) :
  exists logits rs outs,
    batched_forward params images = Ok logits /\
    shape logits = [b; nL] /\ well_formed logits /\
    rows images = Ok rs /\
    mapM (model_forward params) rs = Ok outs /\
    rows logits = Ok outs.
Proof.
  apply (@batched_forward_fits params images b n0 nL); assumption.
Qed.

Lemma batched_forward_rows_witness :
  layers_fit 3 small_params 2 /\ small_params <> [] /\
  shape small_images = [2; 3]%nat /\
  exists logits rs outs,
    batched_forward small_params small_images = Ok logits /\
    shape logits = [2; 2]%nat /\ well_formed logits /\
    rows small_images = Ok rs /\
    mapM (model_forward small_params) rs = Ok outs /\
    rows logits = Ok outs.
Proof.
  assert (Hne : small_params <> []) by discriminate.
  split; [exact small_params_fit|]. split; [exact Hne|]. split; [reflexivity|].
  exact (@batched_forward_rows small_params small_images 2 3 2
           small_params_fit Hne eq_refl).
Defined.

End BatchedFacts.

Section ReluArgmaxFacts.
Local Open Scope R_scope.

(** X5.  [relu] keeps the shape and the number of entries, never returns a
    negative entry, leaves an array without negative entries as it is and,
    therefore, does nothing when applied twice. *)
Theorem relu_clamps (x : array) :
  shape (relu x) = shape x /\
  length (data (relu x)) = length (data x) /\
  Forall (fun v => 0 <= v) (data (relu x)) /\
  (Forall (fun v => 0 <= v) (data x) -> relu x = x) /\
  relu (relu x) = relu x.
Proof.
  assert (Hpos : forall d, Forall (fun v => 0 <= v) (map (Rmax 0) d)).
  { intros d. rewrite Forall_map. apply Forall_forall. intros v _. apply Rmax_l. }
  assert (Hid : forall d, Forall (fun v => 0 <= v) d -> map (Rmax 0) d = d).
  { induction 1 as [|v r Hv _ IH]; [reflexivity|].
    cbn [map]. rewrite IH, (Rmax_right 0 v Hv). reflexivity. }
  split; [reflexivity|].
  split; [unfold relu; cbn [data]; apply length_map|].
  split; [apply Hpos|].
  split.
  - intros Hx. destruct x as [s d]. unfold relu. cbn [shape data] in *.
    rewrite (Hid d Hx). reflexivity.
  - unfold relu. cbn [shape data]. rewrite (Hid _ (Hpos (data x))). reflexivity.
Qed.

Lemma relu_clamps_witness :
  Forall (fun v => 0 <= v) (data small_input) /\ relu small_input = small_input.
Proof.
  assert (H : Forall (fun v => 0 <= v) (data small_input))
    by (repeat constructor; simpl; lra).
  split; [exact H|].
  destruct (relu_clamps small_input) as [_ [_ [_ [Hid _]]]].
  exact (Hid H).
Defined.

(** The scan of [argmax]: [pre] is what has been read, [best_i] the place of
    its first largest entry. *)
Lemma argmax_from_spec (l : list R) :
  forall (pre : list R) (best_i i : nat) (best : R),
  i = length pre -> best = nth best_i pre 0 ->
  (best_i < length pre)%nat ->
  (forall v, In v pre -> v <= best) ->
  (forall j, (j < best_i)%nat -> nth j pre 0 < best) ->
  (argmax_from best_i best i l < length (pre ++ l))%nat /\
  (forall v, In v (pre ++ l) ->
             v <= nth (argmax_from best_i best i l) (pre ++ l) 0) /\
  (forall j, (j < argmax_from best_i best i l)%nat ->
             nth j (pre ++ l) 0 < nth (argmax_from best_i best i l) (pre ++ l) 0).
Proof.
  induction l as [|x l' IH]; intros pre best_i i best Hi Hbest Hlt Hmax Hfirst.
  - cbn [argmax_from]. rewrite app_nil_r, <- Hbest. repeat split; assumption.
  - cbn [argmax_from].
    assert (E : pre ++ x :: l' = (pre ++ [x]) ++ l')
      by (rewrite <- app_assoc; reflexivity).
    rewrite E.
    assert (Hlen : S i = length (pre ++ [x]))
      by (rewrite length_app, Hi; simpl; lia).
    destruct (Rlt_dec best x) as [Hx|Hx].
    + apply IH.
      * exact Hlen.
      * rewrite Hi, app_nth2, Nat.sub_diag by lia. reflexivity.
      * rewrite length_app, Hi. simpl. lia.
      * intros v Hv. apply in_app_or in Hv as [Hv|[<-|[]]]; [|lra].
        specialize (Hmax v Hv). lra.
      * intros j Hj. rewrite Hi in Hj. rewrite app_nth1 by exact Hj.
        assert (Hin : In (nth j pre 0) pre) by (apply nth_In; exact Hj).
        specialize (Hmax _ Hin). lra.
    + apply IH.
      * exact Hlen.
      * rewrite app_nth1 by exact Hlt. exact Hbest.
      * rewrite length_app. simpl. lia.
      * intros v Hv. apply in_app_or in Hv as [Hv|[<-|[]]]; [|lra].
        apply Hmax; exact Hv.
      * intros j Hj. rewrite app_nth1 by lia. apply Hfirst; exact Hj.
Qed.

Lemma argmax_spec (row : list R) :
  row <> [] ->
  (argmax row < length row)%nat /\
  (forall v, In v row -> v <= nth (argmax row) row 0) /\
  (forall j, (j < argmax row)%nat -> nth j row 0 < nth (argmax row) row 0).
Proof.
  destruct row as [|x r]; [congruence|]. intros _.
  apply (@argmax_from_spec r [x] 0%nat 1%nat x).
  - reflexivity.
  - reflexivity.
  - simpl. lia.
  - intros v [<-|[]]. lra.
  - intros j Hj. lia.
Qed.

Lemma nth_one_hot_row (k y j : nat) :
  (j < k)%nat -> nth j (one_hot_row k y) 0 = if (y =? j)%nat then 1 else 0.
Proof.
  intros Hj. unfold one_hot_row.
  rewrite (nth_indep _ 0 ((fun j => if (y =? j)%nat then 1 else 0) 0%nat))
    by (rewrite length_map, length_seq; exact Hj).
  rewrite (map_nth (fun j => if (y =? j)%nat then 1 else 0) (seq 0 k) 0%nat j).
  rewrite seq_nth by exact Hj. reflexivity.
Qed.

Lemma argmax_one_hot_row (k y : nat) :
  (y < k)%nat -> argmax (one_hot_row k y) = y.
Proof.
  intros Hy.
  assert (Hne : one_hot_row k y <> []).
  { intros E. apply (f_equal (@length R)) in E.
    rewrite length_one_hot_row in E. simpl in E. lia. }
  destruct (argmax_spec Hne) as [Hlt [Hmax Hfirst]].
  rewrite length_one_hot_row in Hlt.
  set (r := argmax (one_hot_row k y)) in *.
  assert (H1 : nth y (one_hot_row k y) 0 = 1)
    by (rewrite nth_one_hot_row, Nat.eqb_refl by exact Hy; reflexivity).
  assert (Hin : In (nth y (one_hot_row k y) 0) (one_hot_row k y))
    by (apply nth_In; rewrite length_one_hot_row; exact Hy).
  specialize (Hmax _ Hin). rewrite H1 in Hmax.
  rewrite nth_one_hot_row in Hmax by exact Hlt.
  destruct (Nat.eqb_spec y r) as [E|_]; [symmetry; exact E | lra].
Qed.

(** X7.  Decoding a one-hot encoding gives the labels back: for labels below
    the number [k > 0] of classes, [argmax] along the rows of [one_hot] is
    the list of labels. *)
Theorem argmax_one_hot (labels : list nat) (k : nat)
        (Hk : (0 < k)%nat) (Hlabels : Forall (fun y => (y < k)%nat) labels) :
  argmax_rows (one_hot labels k) = Ok labels.
Proof.
  unfold argmax_rows, one_hot. cbn [shape data].
  destruct (Nat.eqb_spec k 0); [lia|]. f_equal.
  rewrite <- (length_map (one_hot_row k) labels).
  rewrite chunks_concat
    by (rewrite Forall_map; apply Forall_forall; intros y _; apply length_one_hot_row).
  rewrite map_map.
  induction Hlabels as [|y r Hy _ IH]; [reflexivity|].
  cbn [map]. rewrite IH, (argmax_one_hot_row Hy). reflexivity.
Qed.

Lemma argmax_one_hot_witness :
  (0 < 10)%nat /\ Forall (fun y => (y < 10)%nat) [5; 0; 9]%nat /\
  argmax_rows (one_hot [5; 0; 9]%nat 10) = Ok [5; 0; 9]%nat.
Proof.
  assert (Hk : (0 < 10)%nat) by lia.
  assert (Hl : Forall (fun y => (y < 10)%nat) [5; 0; 9]%nat)
    by (repeat constructor; lia).
  split; [exact Hk|]. split; [exact Hl|].
  exact (argmax_one_hot Hk Hl).
Defined.

Lemma sum_one_hot_from (y : nat) (n : nat) :
  forall s,
  sum (map (fun j => if (y =? j)%nat then 1 else 0) (seq s n))
  = if ((s <=? y) && (y <? s + n))%nat then 1 else 0.
Proof.
  induction n as [|n IH]; intros s.
  - simpl. destruct (s <=? y)%nat eqn:E1; simpl; [|reflexivity].
    destruct (y <? s + 0)%nat eqn:E2; [|reflexivity].
    apply Nat.leb_le in E1. apply Nat.ltb_lt in E2. lia.
  - cbn [seq map sum fold_right].
    fold (sum (map (fun j => if (y =? j)%nat then 1 else 0) (seq (S s) n))).
    rewrite IH.
    destruct (Nat.eqb_spec y s) as [->|Hne].
    + rewrite Nat.leb_refl.
      replace (s <? s + S n)%nat with true by (symmetry; apply Nat.ltb_lt; lia).
      replace (S s <=? s)%nat with false by (symmetry; apply Nat.leb_gt; lia).
      simpl. lra.
    + destruct (Nat.leb_spec (S s) y) as [Hle|Hgt].
      * replace (s <=? y)%nat with true by (symmetry; apply Nat.leb_le; lia).
        replace (s + S n)%nat with (S s + n)%nat by lia.
        destruct (y <? S s + n)%nat; simpl; lra.
      * replace (s <=? y)%nat with false by (symmetry; apply Nat.leb_gt; lia).
        simpl. lra.
Qed.

(** X8.  [one_hot(x, k)] is a well-formed [(len(x), k)] matrix of zeros and
    ones; the row of a label below [k] sums to 1, and a label that is not
    below [k] is not refused: its row is all zeros. *)
Theorem one_hot_rows (x : list nat) (k : nat) :
  shape (one_hot x k) = [length x; k] /\
  well_formed (one_hot x k) /\
  Forall (fun v => v = 0 \/ v = 1) (data (one_hot x k)) /\
  (forall y, (y < k)%nat -> sum (one_hot_row k y) = 1) /\
  (forall y, (k <= y)%nat -> one_hot_row k y = repeat 0 k).
Proof.
  split; [reflexivity|].
  split.
  { unfold well_formed, one_hot. cbn [shape data].
    rewrite length_one_hot_data. simpl. lia. }
  split.
  { unfold one_hot. cbn [data]. apply Forall_forall. intros v Hv.
    apply in_concat in Hv as [row [Hrow Hv]].
    apply in_map_iff in Hrow as [y [<- _]].
    unfold one_hot_row in Hv. apply in_map_iff in Hv as [j [<- _]].
    destruct (y =? j)%nat; [right | left]; reflexivity. }
  split.
  { intros y Hy. unfold one_hot_row. rewrite sum_one_hot_from.
    replace (0 <=? y)%nat with true by (symmetry; apply Nat.leb_le; lia).
    replace (y <? 0 + k)%nat with true by (symmetry; apply Nat.ltb_lt; lia).
    reflexivity. }
  intros y Hy. unfold one_hot_row.
  assert (H : forall s n, (s + n <= y)%nat ->
            map (fun j => if (y =? j)%nat then 1 else 0) (seq s n) = repeat 0 n).
  { intros s n; revert s; induction n as [|n IH]; intros s Hs; [reflexivity|].
    cbn [seq map repeat]. rewrite IH by lia.
    destruct (Nat.eqb_spec y s); [lia | reflexivity]. }
  apply H. simpl. exact Hy.
Qed.

Lemma one_hot_rows_witness :
  (3 < 10)%nat /\ sum (one_hot_row 10 3) = 1 /\
  (10 <= 12)%nat /\ one_hot_row 10 12 = repeat 0 10.
Proof.
  destruct (one_hot_rows [3; 12]%nat 10) as [_ [_ [_ [Hin Hout]]]].
  assert (H1 : (3 < 10)%nat) by lia.
  assert (H2 : (10 <= 12)%nat) by lia.
  split; [exact H1|]. split; [exact (Hin 3%nat H1)|].
  split; [exact H2|]. exact (Hout 12%nat H2).
Defined.

End ReluArgmaxFacts.

Section LossBoundFacts.
Local Open Scope R_scope.

Lemma sum_exp_bounds (d : list R) (v : R) :
  In v d -> 0 < exp v <= sum (map exp d).
Proof.
  assert (Hpos : forall l, 0 <= sum (map exp l)).
  { induction l as [|x r IH]; simpl; [lra|]. pose proof (exp_pos x). lra. }
  induction d as [|x r IH]; [contradiction|].
  intros [->|Hin]; simpl.
  - pose proof (exp_pos v). pose proof (Hpos r). lra.
  - specialize (IH Hin). pose proof (exp_pos x). lra.
Qed.

(** An entry is at most the logsumexp of the array it belongs to. *)
Lemma le_logsumexp (a : array) (v : R) :
  In v (data a) -> v <= logsumexp a.
Proof.
  intros Hin. unfold logsumexp.
  destruct (sum_exp_bounds _ _ Hin) as [Hpos [Hlt|Heq]].
  - left. rewrite <- (ln_exp v) at 1. apply ln_increasing; assumption.
  - right. rewrite <- Heq. symmetry. apply ln_exp.
Qed.

Lemma chunks_members {A : Type} (n w : nat) :
  forall (d row : list A),
  length d = (n * w)%nat -> In row (chunks n w d) ->
  length row = w /\ (forall v, In v row -> In v d).
Proof.
  induction n as [|n IH]; intros d row Hd Hin; [contradiction|].
  cbn [chunks] in Hin. simpl in Hd.
  destruct Hin as [<-|Hin].
  - split; [apply firstn_length_le; lia|].
    intros v Hv. rewrite <- (firstn_skipn w d). apply in_or_app. left; exact Hv.
  - destruct (IH (skipn w d) row) as [Hl Hsub];
      [rewrite length_skipn; lia | exact Hin |].
    split; [exact Hl|].
    intros v Hv. rewrite <- (firstn_skipn w d). apply in_or_app.
    right; apply Hsub; exact Hv.
Qed.

Lemma sum_map_nonneg {A : Type} (f : A -> R) (l : list A) :
  (forall x, In x l -> 0 <= f x) -> 0 <= sum (map f l).
Proof.
  induction l as [|x r IH]; intros Hf; simpl; [lra|].
  assert (0 <= f x) by (apply Hf; left; reflexivity).
  assert (0 <= sum (map f r)) by (apply IH; intros y Hy; apply Hf; right; exact Hy).
  lra.
Qed.

(** X9.  On a batch of at least one example and one-hot targets whose labels
    are below the number of classes, [loss] returns a value and the value is
    not negative. *)
Theorem loss_nonnegative
        (params : list (array * array)) (images logits : array)
        (labels : list nat) (b k : nat)
        (Hb : (0 < b)%nat)
        (Hforward : batched_forward params images = Ok logits)
        (Hshape : shape logits = [b; k])
        (Hdata : length (data logits) = (b * k)%nat)
        (Hlabels : length labels = b)
        (Hclasses : Forall (fun y => (y < k)%nat) labels) :
  exists v, loss params images (one_hot labels k) = Ok v /\ 0 <= v.
Proof.
  rewrite (@loss_one_hot_eq params images logits labels b k) by assumption.
  eexists. split; [reflexivity|].
  assert (Hsum : 0 <= sum (map (fun rl : list R * nat =>
                                  logsumexp logits - nth (snd rl) (fst rl) 0)
                               (combine (chunks b k (data logits)) labels))).
  { apply sum_map_nonneg. intros [row y] Hin. cbn [fst snd].
    pose proof (in_combine_l _ _ _ _ Hin) as Hrow.
    pose proof (in_combine_r _ _ _ _ Hin) as Hy.
    destruct (@chunks_members _ b k (data logits) row Hdata Hrow) as [Hl Hsub].
    rewrite Forall_forall in Hclasses. specialize (Hclasses y Hy).
    assert (Hv : In (nth y row 0) (data logits))
      by (apply Hsub, nth_In; lia).
    pose proof (le_logsumexp logits _ Hv). lra. }
  assert (Hk : (0 < k)%nat).
  { destruct labels as [|y ys]; [simpl in Hlabels; lia|].
    inversion Hclasses; subst. lia. }
  unfold Rdiv. apply Rmult_le_pos; [exact Hsum|].
  left. apply Rinv_0_lt_compat, lt_0_INR. nia.
Qed.

Lemma loss_nonnegative_witness :
  (0 < 2)%nat /\
  batched_forward zero_params two_zero_images = Ok two_zero_logits /\
  Forall (fun y => (y < 2)%nat) [0; 1]%nat /\
  exists v,
    loss zero_params two_zero_images (one_hot [0; 1]%nat 2) = Ok v /\ 0 <= v.
Proof.
  assert (Hc : Forall (fun y => (y < 2)%nat) [0; 1]%nat)
    by (repeat constructor; lia).
  assert (Hb : (0 < 2)%nat) by lia.
  split; [exact Hb|].
  split; [exact two_zero_forward|]. split; [exact Hc|].
  exact (@loss_nonnegative zero_params two_zero_images two_zero_logits
           [0; 1]%nat 2 2 Hb two_zero_forward eq_refl eq_refl eq_refl Hc).
Defined.

End LossBoundFacts.

Section ScheduleFacts.
Local Open Scope R_scope.

Lemma lr_step_fixed : lr_step (1 / 1000) = 1 / 1000.
Proof.
  unfold lr_step. destruct (Rlt_dec (1 / 1000) (1 / 1000)); [lra | reflexivity].
Qed.

Lemma lr_step_small (lr : R) : lr <= 1 / 1000 -> lr_step lr = 1 / 1000.
Proof.
  intros H. unfold lr_step. destruct (Rlt_dec (1 / 1000) lr); [lra | reflexivity].
Qed.

Lemma lr_step_large (lr : R) : 1 / 1000 < lr -> lr_step lr = lr * (999 / 1000).
Proof.
  intros H. unfold lr_step. destruct (Rlt_dec (1 / 1000) lr); [reflexivity | lra].
Qed.

Lemma lr_iter_fixed (m : nat) : Nat.iter m lr_step (1 / 1000) = 1 / 1000.
Proof.
  induction m as [|m IH]; [reflexivity|].
  rewrite Nat.iter_succ, IH. apply lr_step_fixed.
Qed.

Lemma lr_reaches_floor (N : nat) :
  forall lr, lr * (999 / 1000) ^ N <= 1 / 1000 ->
  exists n, (n <= N)%nat /\ Nat.iter n lr_step lr <= 1 / 1000.
Proof.
  induction N as [|N IH]; intros lr Hlr.
  - exists 0%nat. split; [lia|]. simpl in *. lra.
  - destruct (Rle_lt_dec lr (1 / 1000)) as [Hsmall|Hlarge].
    + exists 0%nat. split; [lia | exact Hsmall].
    + destruct (IH (lr * (999 / 1000))) as [n [Hn Hiter]].
      { simpl in Hlr. lra. }
      exists (S n). split; [lia|].
      rewrite Nat.iter_succ_r, (lr_step_large Hlarge). exact Hiter.
Qed.

Lemma lr_power_small (lr : R) :
  exists N, lr * (999 / 1000) ^ N <= 1 / 1000.
Proof.
  destruct (Rle_lt_dec lr (1 / 1000)) as [Hsmall|Hlarge].
  - exists 0%nat. simpl. lra.
  - assert (Hq : Rabs (999 / 1000) < 1) by (rewrite Rabs_pos_eq; lra).
    assert (Hy : 0 < 1 / 1000 / lr) by (apply Rdiv_lt_0_compat; lra).
    destruct (pow_lt_1_zero _ Hq _ Hy) as [N HN].
    exists N. specialize (HN N (Nat.le_refl N)).
    assert (Hp : 0 <= (999 / 1000) ^ N) by (apply pow_le; lra).
    rewrite Rabs_pos_eq in HN by exact Hp.
    apply (Rmult_lt_compat_l lr) in HN; [|lra].
    replace (lr * (1 / 1000 / lr)) with (1 / 1000) in HN by (field; lra).
    lra.
Qed.

(** X10.  The learning-rate schedule of the training loop: a step never
    gives less than 0.999e-3 nor more than the larger of the current rate
    and 1e-3; it multiplies a rate above 1e-3 by 0.999 (so the rate can dip
    just below 1e-3 for one step) and sends any other rate to 1e-3, which it
    leaves unchanged; from every start the rate is 1e-3 after finitely many
    steps and stays there. *)
Theorem lr_schedule (lr0 : R) :
  999 / 1000000 <= lr_step lr0 <= Rmax lr0 (1 / 1000) /\
  (1 / 1000 < lr0 -> lr_step lr0 = lr0 * (999 / 1000)) /\
  (lr0 <= 1 / 1000 -> lr_step lr0 = 1 / 1000) /\
  exists N, forall m, (N <= m)%nat -> Nat.iter m lr_step lr0 = 1 / 1000.
Proof.
  split.
  { destruct (Rle_lt_dec lr0 (1 / 1000)) as [Hs|Hl].
    - rewrite (lr_step_small Hs). pose proof (Rmax_r lr0 (1 / 1000)). lra.
    - rewrite (lr_step_large Hl). pose proof (Rmax_l lr0 (1 / 1000)). lra. }
  split; [apply lr_step_large|].
  split; [apply lr_step_small|].
  destruct (lr_power_small lr0) as [N HN].
  destruct (@lr_reaches_floor N lr0 HN) as [n [_ Hn]].
  exists (S n). intros m Hm.
  replace m with ((m - S n) + S n)%nat by lia.
  rewrite Nat.iter_add, Nat.iter_succ, (lr_step_small Hn).
  apply lr_iter_fixed.
Qed.

Lemma lr_schedule_witness :
  1 / 1000 < 1 / 100 /\ lr_step (1 / 100) = 1 / 100 * (999 / 1000) /\
  1 / 2000 <= 1 / 1000 /\ lr_step (1 / 2000) = 1 / 1000.
Proof.
  assert (H1 : 1 / 1000 < 1 / 100) by lra.
  assert (H2 : 1 / 2000 <= 1 / 1000) by lra.
  split; [exact H1|].
  split; [exact (proj1 (proj2 (lr_schedule (1 / 100))) H1)|].
  split; [exact H2|].
  exact (proj1 (proj2 (proj2 (lr_schedule (1 / 2000)))) H2).
Defined.

End ScheduleFacts.

(* ================================================================== *)
(** * The evaluation loops *)

Section EvaluationFacts.
Local Open Scope R_scope.

Lemma wrap_int32_small (n : Z) :
  (- 2 ^ 31 <= n < 2 ^ 31)%Z -> wrap_int32 n = n.
Proof.
  intros Hn. unfold wrap_int32. rewrite Z.mod_small by lia. lia.
Qed.


Lemma count_equal_correct (p y : list nat) :
  length y = length p -> (Z.of_nat (length y) < 2 ^ 31)%Z ->
  count_equal p y = Ok (Z.of_nat (correct p y)).
Proof.
  intros Hlen Hy. unfold count_equal, broadcast.
  rewrite <- Hlen, Nat.eqb_refl. cbn [bind fst snd].
  rewrite count_true_correct.
  rewrite wrap_int32_small; [reflexivity|].
  pose proof (correct_le p y). lia.
Qed.

Lemma value_add_count (total_acc : number) (c : nat) :
  match total_acc with
  | py_int n | jnp_int32 n => (0 <= n /\ n + Z.of_nat c < 2 ^ 31)%Z
  | _ => True
  end ->
  value_of (add_count total_acc (Z.of_nat c)) = value_of total_acc + INR c /\
  is_python (add_count total_acc (Z.of_nat c)) = false.
Proof.
  intros Hroom. split; [|destruct total_acc; reflexivity].
  rewrite INR_IZR_INZ.
  destruct total_acc as [n|r|n|r]; cbn [add_count value_of];
    try reflexivity;
    (rewrite wrap_int32_small by lia; apply plus_IZR).
Qed.

Lemma value_add_len (total_num : number) (n : nat) :
  is_python total_num = true ->
  value_of (add_len total_num n) = value_of total_num + INR n /\
  is_python (add_len total_num n) = true.
Proof.
  destruct total_num as [m|r|m|r]; cbn [is_python add_len value_of];
    try discriminate; intros _; split; try reflexivity.
  rewrite INR_IZR_INZ. apply plus_IZR.
Qed.

(** The totals the loop ends with when every batch has as many predictions
    and labels as rows and the counters do not overflow: the number of
    correct predictions and the number of examples. *)
Lemma evaluate_totals (predict : array -> result (list nat))
      (loader : list (array * list nat)) (preds : list (list nat)) :
  Forall2 (fun b p => predict (fst b) = Ok p /\
                      len (fst b) = Ok (length p) /\
                      length (snd b) = length p) loader preds ->
  forall total_acc total_num,
  is_python total_num = true ->
  (Z.of_nat (length (labels_of loader)) < 2 ^ 31)%Z ->
  match total_acc with
  | py_int n | jnp_int32 n =>
      (0 <= n /\ n + Z.of_nat (length (labels_of loader)) < 2 ^ 31)%Z
  | _ => True
  end ->
  exists acc num,
    evaluate predict loader total_acc total_num = Ok (acc, num) /\
    value_of acc
    = value_of total_acc + INR (correct (concat preds) (labels_of loader)) /\
    value_of num = value_of total_num + INR (length (labels_of loader)) /\
    is_python num = true /\
    (loader <> [] -> is_python acc = false).
Proof.
  unfold labels_of.
  induction 1 as [|[x y] p loader' preds' [Hp [Hn Hy]] _ IH];
    intros total_acc total_num Hpy Hsmall Hroom.
  - exists total_acc, total_num. cbn.
    repeat split; try lra; try assumption. congruence.
  - cbn [evaluate fst snd map concat] in *.
    rewrite length_app in Hsmall, Hroom.
    pose proof (correct_le p y) as Hc.
    rewrite Hp. cbn [bind]. rewrite Hn. cbn [bind].
    rewrite (@count_equal_correct p y Hy) by lia. cbn [bind].
    destruct (@value_add_count total_acc (correct p y)) as [Hva Hpa].
    { destruct total_acc; try exact I; lia. }
    destruct (@value_add_len total_num (length p) Hpy) as [Hvn Hpn].
    destruct (IH (add_count total_acc (Z.of_nat (correct p y)))
                 (add_len total_num (length p)) Hpn)
      as [acc [num [Hev [Hacc [Hnum [Hpnum Hpacc]]]]]].
    { lia. }
    { destruct total_acc as [n|r|n|r]; cbn [add_count]; try exact I;
        rewrite wrap_int32_small by lia; lia. }
    exists acc, num. split; [exact Hev|].
    split; [rewrite Hacc, Hva, correct_app by (symmetry; exact Hy);
            rewrite plus_INR; lra|].
    split; [rewrite Hnum, Hvn, length_app, plus_INR, Hy; lra|].
    split; [exact Hpnum|].
    intros _.
    destruct loader' as [|b loader''].
    + cbn [evaluate] in Hev. inversion Hev; subst.
      exact Hpa.
    + apply Hpacc. discriminate.
Qed.

Lemma ratio_finite (acc num : number) :
  value_of num <> 0 -> ratio acc num = Ok (finite (value_of acc / value_of num)).
Proof.
  intros Hnum. unfold ratio.
  destruct (Req_dec_T (value_of num) 0); [contradiction | reflexivity].
Qed.



(** The value both loops return on batches with as many predictions and
    labels as rows, [N > 0] examples in all. *)
Lemma evaluate_fraction (predict : array -> result (list nat))
      (loader : list (array * list nat)) (preds : list (list nat))
      (start : number) :
  Forall2 (fun b p => predict (fst b) = Ok p /\
                      len (fst b) = Ok (length p) /\
                      length (snd b) = length p) loader preds ->
  start = py_int 0 \/ start = py_float 0 ->
  (0 < length (labels_of loader))%nat ->
  (Z.of_nat (length (labels_of loader)) < 2 ^ 31)%Z ->
  (totals <- evaluate predict loader start start ;;
   ratio (fst totals) (snd totals))
  = Ok (finite (INR (correct (concat preds) (labels_of loader))
                / INR (length (labels_of loader)))).
Proof.
  intros Hall Hstart HN Hsmall.
  destruct (@evaluate_totals predict loader preds Hall start start)
    as [acc [num [Hev [Hacc [Hnum _]]]]].
  - destruct Hstart; subst; reflexivity.
  - exact Hsmall.
  - destruct Hstart; subst; [lia | exact I].
  - rewrite Hev. cbn [bind fst snd].
    assert (H0 : value_of start = 0) by (destruct Hstart; subst; reflexivity).
    rewrite H0, Rplus_0_l in Hacc, Hnum.
    rewrite ratio_finite, Hacc, Hnum; [reflexivity|].
    rewrite Hnum. apply not_0_INR. lia.
Qed.

(** The predictions of a batch whose logits are known. *)
Lemma argmax_rows_of_logits (lg : array) (b k : nat) :
  (0 < k)%nat -> shape lg = [b; k] ->
  argmax_rows lg = Ok (map argmax (chunks (hd 0%nat (shape lg)) k (data lg))).
Proof.
  intros Hk Hshape. unfold argmax_rows. rewrite Hshape. cbn [hd].
  destruct (Nat.eqb_spec k 0); [lia | reflexivity].
Qed.

Lemma logit_rows_predictions (k : nat) (logits : list array) :
  map argmax (logit_rows k logits)
  = concat (map (fun lg => map argmax (chunks (hd 0%nat (shape lg)) k (data lg)))
                logits).
Proof.
  unfold logit_rows. rewrite concat_map, map_map. reflexivity.
Qed.

(** From the logits of the batches to the hypothesis of [evaluate_totals]. *)
Lemma predictions_of_logits (predict : array -> result (list nat))
      (forward : array -> result array)
      (loader : list (array * list nat)) (logits : list array) (k : nat) :
  (0 < k)%nat ->
  (forall x, predict x = (lg <- forward x ;; argmax_rows lg)) ->
  Forall2 (fun b lg =>
             len (fst b) = Ok (length (snd b)) /\
             shape lg = [length (snd b); k] /\
             length (data lg) = (length (snd b) * k)%nat) loader logits ->
  Forall2 (fun b lg => forward (fst b) = Ok lg) loader logits ->
  Forall2 (fun b p => predict (fst b) = Ok p /\
                      len (fst b) = Ok (length p) /\
                      length (snd b) = length p)
          loader
          (map (fun lg => map argmax (chunks (hd 0%nat (shape lg)) k (data lg)))
               logits).
Proof.
  intros Hk Hpredict Hbatches.
  induction Hbatches as [|b lg loader' logits' [Hlen [Hshape _]] _ IH];
    intros Hforward; [constructor|].
  inversion Hforward as [|? ? ? ? Hfw Hrest]; subst.
  cbn [map]. constructor; [|apply IH; exact Hrest].
  assert (Hl : length (map argmax (chunks (hd 0%nat (shape lg)) k (data lg)))
               = length (snd b)).
  { rewrite length_map, length_chunks, Hshape. reflexivity. }
  rewrite Hl. repeat split; [|exact Hlen].
  rewrite Hpredict, Hfw. cbn [bind].
  apply (@argmax_rows_of_logits lg (length (snd b)) k Hk Hshape).
Qed.

Lemma logit_rows_shape (loader : list (array * list nat)) (logits : list array)
      (k : nat) :
  Forall2 (fun b lg =>
             len (fst b) = Ok (length (snd b)) /\
             shape lg = [length (snd b); k] /\
             length (data lg) = (length (snd b) * k)%nat) loader logits ->
  length (logit_rows k logits) = length (labels_of loader) /\
  Forall (fun row => length row = k) (logit_rows k logits).
Proof.
  unfold logit_rows, labels_of.
  induction 1 as [|b lg loader' logits' [_ [Hshape Hdata]] _ [IHl IHr]];
    [split; [reflexivity | constructor]|].
  cbn [map concat]. rewrite !length_app, length_chunks, IHl, Hshape. cbn [hd].
  split; [reflexivity|].
  apply Forall_app. split; [|exact IHr].
  apply Forall_forall. intros row Hrow.
  exact (proj1 (@chunks_members _ (length (snd b)) k (data lg) row Hdata Hrow)).
Qed.

(** C7.  A loader yields batches [(x, y)] of labelled examples, [N > 0] in
    all, and the model gives [k] logits per example.  Then [accuracy] (and
    [eval_model]) returns the number of examples whose label equals the
    [argmax] of their logits, divided by [N], and that value lies between 0
    and 1.  The [argmax] of a row of logits is the position of its first
    largest entry.  [N] is taken below [2 ^ 24], where the int32 and float32
    counters of the code are exact. *)
Theorem accuracy_is_fraction_correct
        (params : list (array * array)) {P : Type} (state : TrainState P)
        (loader : list (array * list nat)) (logits : list array) (k : nat)
        (Hk : (0 < k)%nat)
        (Hbatches : Forall2 (fun b lg =>
                               len (fst b) = Ok (length (snd b)) /\
                               shape lg = [length (snd b); k] /\
                               length (data lg) = (length (snd b) * k)%nat)
                            loader logits)
        (HN : (0 < length (labels_of loader))%nat)
        (Hsmall : (Z.of_nat (length (labels_of loader)) < 2 ^ 24)%Z) :
  length (logit_rows k logits) = length (labels_of loader) /\
  Forall (fun row =>
            (argmax row < k)%nat /\
            (forall v, In v row -> v <= nth (argmax row) row 0) /\
            (forall j, (j < argmax row)%nat ->
                       nth j row 0 < nth (argmax row) row 0))
         (logit_rows k logits) /\
  (Forall2 (fun b lg => batched_forward params (fst b) = Ok lg) loader logits ->
   accuracy params loader
   = Ok (finite (INR (correct (map argmax (logit_rows k logits)) (labels_of loader))
                 / INR (length (labels_of loader))))) /\
  (Forall2 (fun b lg => apply_fn state (state_params state) (fst b) = Ok lg)
           loader logits ->
   eval_model state loader
   = Ok (finite (INR (correct (map argmax (logit_rows k logits)) (labels_of loader))
                 / INR (length (labels_of loader))))) /\
  0 <= INR (correct (map argmax (logit_rows k logits)) (labels_of loader))
       / INR (length (labels_of loader)) <= 1.
Proof.
  destruct (logit_rows_shape Hbatches) as [Hlen Hrows].
  split; [exact Hlen|].
  split.
  { eapply Forall_impl; [|exact Hrows].
    intros row Hrow.
    assert (Hne : row <> []) by (intros ->; simpl in Hrow; lia).
    destruct (argmax_spec Hne) as [Hlt Hmax].
    rewrite Hrow in Hlt. split; assumption. }
  rewrite logit_rows_predictions.
  split; [|split].
  - intros Hforward. unfold accuracy.
    apply evaluate_fraction; [|left; reflexivity | exact HN | lia].
    apply (@predictions_of_logits (predict_classes params) (batched_forward params)
             loader logits k Hk); [reflexivity | exact Hbatches | exact Hforward].
  - intros Hforward. unfold eval_model.
    apply evaluate_fraction; [|right; reflexivity | exact HN | lia].
    apply (@predictions_of_logits (apply_model state)
             (apply_fn state (state_params state))
             loader logits k Hk); [reflexivity | exact Hbatches | exact Hforward].
  - apply fraction_bounds; [apply correct_le | exact HN].
Qed.

Lemma demo_forward :
  Forall2 (fun b lg => batched_forward identity_params (fst b) = Ok lg)
          demo_loader demo_logits.
Proof.
  repeat constructor; cbn [fst demo_loader];
    unfold batched_forward, vmap; simpl;
    unfold add, zip_with, dotp; simpl;
    do 2 f_equal; repeat (f_equal; try ring).
Qed.

Lemma demo_argmax : map argmax (logit_rows 2 demo_logits) = [0; 1; 1]%nat.
Proof.
  unfold logit_rows. simpl.
  repeat (destruct (Rlt_dec _ _); try lra); reflexivity.
Qed.

Lemma demo_predictions :
  Forall2 (fun b p => predict_classes identity_params (fst b) = Ok p)
          demo_loader [[0; 1]; [1]]%nat.
Proof.
  pose proof demo_forward as Hf.
  inversion Hf as [|? ? ? ? H1 Hf']; subst.
  inversion Hf' as [|? ? ? ? H2 _]; subst.
  repeat constructor; unfold predict_classes;
    [rewrite H1 | rewrite H2]; cbn [bind];
    unfold argmax_rows; simpl;
    repeat (destruct (Rlt_dec _ _); try lra); reflexivity.
Qed.

Lemma demo_batches :
  Forall2 (fun (b : array * list nat) (lg : array) =>
             len (fst b) = Ok (length (snd b)) /\
             shape lg = [length (snd b); 2%nat] /\
             length (data lg) = (length (snd b) * 2)%nat)
          demo_loader demo_logits.
Proof. repeat constructor. Qed.


Lemma accuracy_is_fraction_correct_witness :
  (0 < 2)%nat /\
  (0 < length (labels_of demo_loader))%nat /\
  (Z.of_nat (length (labels_of demo_loader)) < 2 ^ 24)%Z /\
  accuracy identity_params demo_loader = Ok (finite (INR 2 / INR 3)) /\
  eval_model demo_state demo_loader = Ok (finite (INR 2 / INR 3)) /\
  0 <= INR 2 / INR 3 <= 1.
Proof.
  assert (Hk : (0 < 2)%nat) by lia.
  assert (HN : (0 < length (labels_of demo_loader))%nat) by (simpl; lia).
  assert (Hsmall : (Z.of_nat (length (labels_of demo_loader)) < 2 ^ 24)%Z)
    by (simpl; lia).
  split; [exact Hk|]. split; [exact HN|]. split; [exact Hsmall|].
  destruct (@accuracy_is_fraction_correct identity_params _ demo_state
              demo_loader demo_logits 2 Hk demo_batches HN Hsmall)
    as [_ [_ [Hacc [Heval Hbounds]]]].
  rewrite demo_argmax in Hacc, Heval, Hbounds.
  split; [exact (Hacc demo_forward)|].
  split; [exact (Heval demo_forward)|].
  exact Hbounds.
Defined.




End EvaluationFacts.

(* ================================================================== *)
(** * Further properties of the data pipeline *)

Section PipelineFacts.

Lemma np_array_scalars (zs : list Z) :
  zs <> [] ->
  np_array (map scalar zs) = Ok (ndarray [length zs] zs).
Proof.
  intros Hne. unfold np_array.
  assert (Hparts : mapM as_array (map scalar zs) = Ok (map (fun z => ([], [z])) zs)).
  { clear Hne. induction zs as [|z r IH]; [reflexivity|].
    cbn [map mapM as_array]. rewrite IH. reflexivity. }
  rewrite Hparts. cbn [bind].
  destruct zs as [|z r]; [congruence|].
  cbn [map assemble].
  assert (Hsame : forallb (fun p : list nat * list Z => shape_eqb (fst p) [])
                    (map (fun z => ([], [z])) r) = true).
  { apply forallb_forall. intros p Hp.
    apply in_map_iff in Hp as [w [<- _]]. reflexivity. }
  rewrite Hsame. cbn [bind fst snd length map].
  rewrite length_map. do 2 f_equal. cbn [concat app]. f_equal.
  clear. induction r as [|a r IH]; [reflexivity|].
  cbn [map concat app snd]. rewrite IH. reflexivity.
Qed.

Lemma round_float32_small (z : Z) :
  (Z.abs z <= 2 ^ 24)%Z -> round_float32 z = z.
Proof.
  intros Hz. unfold round_float32.
  destruct (Z.ltb_spec (Z.abs z) (2 ^ 24)) as [|Hge]; [reflexivity|].
  assert (Hcases : z = (2 ^ 24)%Z \/ z = (- 2 ^ 24)%Z) by lia.
  destruct Hcases as [-> | ->]; vm_compute; reflexivity.
Qed.

Lemma cast_float32_small (d : list Z) :
  Forall (fun z => (Z.abs z <= 2 ^ 24)%Z) d -> mapM cast_float32 d = Ok d.
Proof.
  induction 1 as [|z r Hz _ IH]; [reflexivity|].
  cbn [mapM]. unfold cast_float32 at 1.
  rewrite (round_float32_small _ Hz).
  destruct (Z.leb_spec (2 ^ 128) (Z.abs z)) as [Hbig|_]; [lia|].
  cbn [bind]. rewrite IH. reflexivity.
Qed.

Lemma FlattenAndCast_array (s : list nat) (d : list Z) :
  Forall (fun z => (Z.abs z <= 2 ^ 24)%Z) d ->
  FlattenAndCast (ndarray s d) = Ok (ndarray [prod_shape s] d).
Proof.
  intros Hd. unfold FlattenAndCast. cbn [as_array bind fst snd].
  rewrite (cast_float32_small Hd). reflexivity.
Qed.

(** X12.  On entries that float32 represents exactly (the integers up to
    [2 ^ 24], among them the gray levels 0 to 255), [FlattenAndCast] makes a
    picture one-dimensional and keeps its entries in order; applied to its
    own result it changes nothing.  A non-empty batch of dataset items, each
    such a picture of one shape with a label that fits int64, is collated by
    [numpy_collate] into the list of the matrix of the pictures, one per
    row, and the vector of the labels. *)
Theorem numpy_collate_labelled_batch
        (s : list nat) (items : list (list Z * Z)) (batch : list value)
        (Hne : items <> [])
        (Hpixels : Forall (fun it => Forall (fun z => (Z.abs z <= 2 ^ 24)%Z)
                                            (fst it)) items)
        (Hlabels : Forall (fun it => (- 2 ^ 63 <= snd it < 2 ^ 63)%Z) items)
        (Hbatch : mapM (fun it => dataset_item (ndarray s (fst it)) (snd it)) items
                  = Ok batch) :
  (forall d,
      Forall (fun z => (Z.abs z <= 2 ^ 24)%Z) d ->
      FlattenAndCast (ndarray s d) = Ok (ndarray [prod_shape s] d) /\
      FlattenAndCast (ndarray [prod_shape s] d) = Ok (ndarray [prod_shape s] d)) /\
  numpy_collate batch
  = Ok (pylist [ndarray [length items; prod_shape s] (concat (map fst items));
                ndarray [length items] (map snd items)]).
Proof.
  split.
  { intros d Hd. split; [exact (FlattenAndCast_array s Hd)|].
    rewrite (FlattenAndCast_array [prod_shape s] Hd).
    cbn [prod_shape fold_right]. rewrite Nat.mul_1_r. reflexivity. }
  assert (Hb : batch = map (fun it => tuple [ndarray [prod_shape s] (fst it);
                                             scalar (snd it)]) items).
  { clear Hne Hlabels. revert batch Hbatch.
    induction Hpixels as [|it r Hit _ IH]; intros batch Hbatch.
    - simpl in Hbatch. inversion Hbatch. reflexivity.
    - cbn [mapM] in Hbatch. unfold dataset_item at 1 in Hbatch.
      rewrite (FlattenAndCast_array s Hit) in Hbatch. cbn [bind] in Hbatch.
      destruct (mapM _ r) as [rest|e]; [|discriminate].
      cbn [bind] in Hbatch. inversion Hbatch; subst.
      cbn [map]. f_equal. apply IH. reflexivity. }
  subst batch.
  set (batch := map _ items).
  assert (Hbne : batch <> []).
  { unfold batch. destruct items; [congruence | discriminate]. }
  assert (Htup : Forall (fun v => is_tuple_of 2 v \/ is_pylist_of 2 v) batch).
  { unfold batch. rewrite Forall_map. apply Forall_forall. intros it _.
    left. eexists. split; reflexivity. }
  pose proof (zip_star_columns Hbne Htup) as Hz.
  rewrite numpy_collate_eq.
  assert (Hbody : numpy_collate_body batch
                  = (transposed <- zip_star batch ;;
                     rs <- mapM numpy_collate transposed ;; Ok (pylist rs))).
  { unfold batch. destruct items as [|it r]; [congruence | reflexivity]. }
  rewrite Hbody, Hz. cbn [bind columns seq map mapM].
  assert (Hc0 : column 0 batch = map (fun it => ndarray [prod_shape s] (fst it)) items).
  { unfold column, batch. rewrite map_map. reflexivity. }
  assert (Hc1 : column 1 batch = map scalar (map snd items)).
  { unfold column, batch. rewrite !map_map. reflexivity. }
  rewrite Hc0, Hc1.
  assert (Hn0 : numpy_collate (map (fun it : list Z * Z => ndarray [prod_shape s] (fst it)) items)
                = Ok (ndarray [length items; prod_shape s] (concat (map fst items)))).
  { rewrite numpy_collate_eq.
    assert (Hx : Forall (is_ndarray_of [prod_shape s])
                        (map (fun it : list Z * Z => ndarray [prod_shape s] (fst it)) items)).
    { rewrite Forall_map. apply Forall_forall. intros it _. eexists. reflexivity. }
    assert (Hxne : map (fun it : list Z * Z => ndarray [prod_shape s] (fst it)) items <> []).
    { destruct items; [congruence | discriminate]. }
    pose proof (np_stack_same_shape Hxne Hx) as Hs.
    rewrite length_map, map_map in Hs. cbn [array_data] in Hs.
    destruct items as [|it r]; [congruence|]. exact Hs. }
  assert (Hn1 : numpy_collate (map scalar (map snd items))
                = Ok (ndarray [length items] (map snd items))).
  { rewrite numpy_collate_eq.
    assert (Hyne : map snd items <> []) by (destruct items; [congruence | discriminate]).
    pose proof (np_array_scalars Hyne) as Ha. rewrite length_map in Ha.
    destruct items as [|it r]; [congruence|]. exact Ha. }
  rewrite Hn0, Hn1. reflexivity.
Qed.

Lemma numpy_collate_labelled_batch_witness :
  picture_items <> [] /\
  Forall (fun it : list Z * Z => Forall (fun z => (Z.abs z <= 2 ^ 24)%Z) (fst it))
         picture_items /\
  Forall (fun it : list Z * Z => (- 2 ^ 63 <= snd it < 2 ^ 63)%Z) picture_items /\
  mapM (fun it => dataset_item (ndarray [2; 2] (fst it)) (snd it)) picture_items
  = Ok [tuple [ndarray [4] [0; 128; 255; 7]%Z; scalar 5];
        tuple [ndarray [4] [1; 2; 3; 4]%Z; scalar 0]] /\
  numpy_collate [tuple [ndarray [4] [0; 128; 255; 7]%Z; scalar 5];
                 tuple [ndarray [4] [1; 2; 3; 4]%Z; scalar 0]]
  = Ok (pylist [ndarray [2; 4] [0; 128; 255; 7; 1; 2; 3; 4]%Z;
                ndarray [2] [5; 0]%Z]).
Proof.
  assert (Hne : picture_items <> []) by discriminate.
  assert (Hpix : Forall (fun it : list Z * Z =>
                           Forall (fun z => (Z.abs z <= 2 ^ 24)%Z) (fst it))
                        picture_items)
    by (repeat constructor; cbn; lia).
  assert (Hlab : Forall (fun it : list Z * Z => (- 2 ^ 63 <= snd it < 2 ^ 63)%Z)
                        picture_items)
    by (repeat constructor; cbn; lia).
  assert (Hbatch : mapM (fun it => dataset_item (ndarray [2; 2] (fst it)) (snd it))
                        picture_items
                   = Ok [tuple [ndarray [4] [0; 128; 255; 7]%Z; scalar 5];
                         tuple [ndarray [4] [1; 2; 3; 4]%Z; scalar 0]])
    by reflexivity.
  split; [exact Hne|]. split; [exact Hpix|]. split; [exact Hlab|].
  split; [exact Hbatch|].
  exact (proj2 (@numpy_collate_labelled_batch [2; 2] picture_items _ Hne Hpix Hlab
                  Hbatch)).
Defined.

Lemma heads_min_len {A : Type} (ls : list (list A)) :
  ls <> [] ->
  match heads ls with
  | None => min_len ls = 0
  | Some (hs, ts) =>
      ts <> [] /\ length hs = length ls /\ S (min_len ts) = min_len ls
  end.
Proof.
  induction ls as [|l r IH]; intros Hne; [congruence|].
  destruct r as [|l' r'].
  - destruct l as [|x xs]; simpl; [reflexivity|].
    repeat split; discriminate.
  - specialize (IH ltac:(discriminate)).
    destruct l as [|x xs]; [reflexivity|].
    change (heads ((x :: xs) :: l' :: r'))
      with (match heads (l' :: r') with
            | Some (hs, ts) => Some (x :: hs, xs :: ts)
            | None => None
            end).
    change (min_len ((x :: xs) :: l' :: r'))
      with (Nat.min (S (length xs)) (min_len (l' :: r'))).
    destruct (heads (l' :: r')) as [[hs ts]|].
    + destruct IH as [Hts [Hlen Hmin]].
      split; [discriminate|]. split; [simpl in *; lia|].
      destruct ts as [|t ts']; [congruence|].
      change (min_len (xs :: t :: ts'))
        with (Nat.min (length xs) (min_len (t :: ts'))).
      lia.
    + rewrite IH. lia.
Qed.

Lemma length_zip_rounds {A : Type} (n : nat) :
  forall ls : list (list A), ls <> [] ->
  length (zip_rounds n ls) = Nat.min n (min_len ls).
Proof.
  induction n as [|n IH]; intros ls Hne; [reflexivity|].
  cbn [zip_rounds].
  pose proof (heads_min_len Hne) as Hh.
  destruct (heads ls) as [[hs ts]|].
  - destruct Hh as [Hts [_ Hmin]].
    cbn [length]. rewrite (IH ts Hts). lia.
  - rewrite Hh. simpl. lia.
Qed.

Lemma min_len_le_hd {A : Type} (ls : list (list A)) :
  min_len ls <= length (hd [] ls).
Proof.
  destruct ls as [|l [|l' r]]; simpl; lia.
Qed.

(** [zip] stops with the shortest of its arguments. *)
Lemma length_zip {A : Type} (ls : list (list A)) :
  ls <> [] -> length (zip ls) = min_len ls.
Proof.
  intros Hne. unfold zip. rewrite (length_zip_rounds _ Hne).
  pose proof (min_len_le_hd ls). lia.
Qed.

Lemma mapM_length {A B : Type} (f : A -> result B) (l : list A) (rs : list B) :
  mapM f l = Ok rs -> length rs = length l.
Proof.
  intros H. apply mapM_ok_Forall2 in H. symmetry. exact (Forall2_length H).
Qed.

(** X13.  On a non-empty batch of tuples or lists of different lengths
    [numpy_collate] does not complain about the lengths: whenever it
    returns, the result is a list with as many elements as the shortest
    batch element has, the further components of the longer ones being
    dropped. *)
Theorem numpy_collate_truncates
        (batch : list value) (v : value)
        (Hne : batch <> []) (Hseq : Forall is_sequence batch)
        (Hv : numpy_collate batch = Ok v) :
  exists rs, v = pylist rs /\ length rs = min_len (map items batch).
Proof.
  assert (Hit : mapM py_iter batch = Ok (map items batch)).
  { clear Hne Hv. induction Hseq as [|x r Hx _ IH]; [reflexivity|].
    cbn [mapM map]. rewrite IH.
    destruct x; try contradiction; reflexivity. }
  rewrite numpy_collate_eq in Hv.
  assert (Hbody : numpy_collate_body batch
                  = (transposed <- zip_star batch ;;
                     rs <- mapM numpy_collate transposed ;; Ok (pylist rs))).
  { destruct batch as [|x r]; [congruence|].
    inversion Hseq as [|? ? Hx _]; subst.
    destruct x; try contradiction; reflexivity. }
  rewrite Hbody in Hv. unfold zip_star in Hv. rewrite Hit in Hv.
  cbn [bind] in Hv.
  destruct (mapM numpy_collate (zip (map items batch))) as [rs|e] eqn:Hrs;
    [|discriminate].
  cbn [bind] in Hv. inversion Hv; subst.
  exists rs. split; [reflexivity|].
  rewrite (mapM_length _ _ Hrs).
  apply length_zip.
  destruct batch; [congruence | discriminate].
Qed.

Lemma numpy_collate_truncates_witness :
  uneven_batch <> [] /\ Forall is_sequence uneven_batch /\
  numpy_collate uneven_batch
  = Ok (pylist [ndarray [2] [1; 4]%Z; ndarray [2] [2; 5]%Z]) /\
  exists rs, pylist [ndarray [2] [1; 4]%Z; ndarray [2] [2; 5]%Z] = pylist rs /\
             length rs = 2.
Proof.
  assert (Hne : uneven_batch <> []) by discriminate.
  assert (Hseq : Forall is_sequence uneven_batch) by (repeat constructor).
  assert (Hv : numpy_collate uneven_batch
               = Ok (pylist [ndarray [2] [1; 4]%Z; ndarray [2] [2; 5]%Z]))
    by reflexivity.
  split; [exact Hne|]. split; [exact Hseq|]. split; [exact Hv|].
  exact (@numpy_collate_truncates uneven_batch _ Hne Hseq Hv).
Defined.

End PipelineFacts.

Section EpochFacts.
Context {key : Type} `{PRNG key}.

Lemma map_nth_seq {A : Type} (l : list A) (d : A) :
  map (fun i => nth i l d) (seq 0 (length l)) = l.
Proof.
  induction l as [|x r IH]; [reflexivity|].
  cbn [length seq map nth]. f_equal.
  rewrite <- seq_shift, map_map. exact IH.
Qed.

Lemma mapM_getitem (data : list value) (d : value) (idx : list nat) :
  Forall (fun i => i < length data) idx ->
  mapM (getitem data) idx = Ok (map (fun i => nth i data d) idx).
Proof.
  induction 1 as [|i r Hi _ IH]; [reflexivity|].
  cbn [mapM map]. rewrite IH. unfold getitem.
  rewrite (nth_error_nth' data d Hi). reflexivity.
Qed.

(** X14.  One pass over a sampler that holds a key visits every item of the
    data source exactly once: all the indices it yields can be fetched (no
    [IndexError]), the fetched items are a permutation of the data source,
    and the sampler keeps its data source. *)
Theorem sampler_visits_every_item
        (self : JAXRandomSampler key) (k : key) (Hk : rng_key self = Some k) :
  exists self' indices samples,
    sampler_iter self = Ok (self', indices) /\
    data_source self' = data_source self /\
    mapM (getitem (data_source self)) indices = Ok samples /\
    Permutation (data_source self) samples.
Proof.
  unfold sampler_iter. rewrite Hk. cbn [split_pair].
  pose proof (permutation_shuffles (split_at k 2 1) (arange (sampler_len self))) as HP.
  set (indices := permutation (split_at k 2 1) (arange (sampler_len self))) in *.
  eexists _, indices, _. split; [reflexivity|]. split; [reflexivity|].
  assert (Hin : Forall (fun i => i < length (data_source self)) indices).
  { apply Forall_forall. intros i Hi.
    apply (Permutation_in _ (Permutation_sym HP)) in Hi.
    unfold arange, sampler_len in Hi. apply in_seq in Hi. lia. }
  split; [exact (@mapM_getitem (data_source self) (scalar 0) indices Hin)|].
  rewrite <- (map_nth_seq (data_source self) (scalar 0)) at 1.
  apply Permutation_map. exact HP.
Qed.

(** X15.  A loader built without shuffling goes through an epoch without
    changing: every epoch yields the same batches, in the same order. *)
Theorem sequential_loader_repeats
        (dataset : list value) (k : option key) (batch_size : nat) (kw : kwargs)
        (L L1 : DataLoader key) (batches : list value)
        (HL : NumpyLoader dataset k batch_size false kw = Ok L)
        (Hepoch : loader_epoch L = Ok (L1, batches)) :
  L1 = L /\ forall m, loader_epochs m L = Ok (repeat batches m).
Proof.
  assert (Hs : loader_sampler L = SequentialSampler dataset).
  { unfold NumpyLoader, DataLoader_init in HL.
    destruct batch_size; [discriminate|]. inversion HL; reflexivity. }
  assert (HL1 : L1 = L).
  { unfold loader_epoch in Hepoch. rewrite Hs in Hepoch.
    cbn [iter_sampler bind fst snd] in Hepoch.
    destruct (mapM _ _) as [bs|e]; [|discriminate].
    cbn [bind] in Hepoch. inversion Hepoch; subst.
    destruct L; cbn in *. rewrite Hs. reflexivity. }
  split; [exact HL1|].
  subst L1. induction m as [|m IH]; [reflexivity|].
  cbn [loader_epochs]. rewrite Hepoch. cbn [bind fst snd]. rewrite IH.
  reflexivity.
Qed.

(** X16.  A positive batch size is all the constructor asks for: [NumpyLoader]
    with [shuffle=True] and no key is built like any other, but its first
    epoch, and every run of epochs, fails with [TypeError] when the sampler
    splits the missing key; a batch size of zero is refused at once. *)
Theorem NumpyLoader_without_key
        (dataset : list value) (size : nat) (kw : kwargs)
        (Hsize : 0 < size) :
  (forall (k : option key) (shuffle : bool),
      exists L, NumpyLoader dataset k size shuffle kw = Ok L) /\
  (forall (k : option key) (shuffle : bool),
      NumpyLoader dataset k 0 shuffle kw = Raise ValueError) /\
  (forall L, NumpyLoader dataset (@None key) size true kw = Ok L ->
             loader_epoch L = Raise TypeError /\
             forall m, loader_epochs (S m) L = Raise TypeError).
Proof.
  split; [|split].
  - intros k shuffle. unfold NumpyLoader, DataLoader_init.
    destruct size as [|n]; [lia|]. eexists. reflexivity.
  - intros k shuffle. reflexivity.
  - intros L HL. unfold NumpyLoader, DataLoader_init in HL.
    destruct size as [|n]; [lia|]. inversion HL; subst.
    assert (He : loader_epoch
                   {| dataset := dataset; batch_size := S n;
                      loader_sampler :=
                        RandomSampler {| data_source := dataset; rng_key := None |};
                      loader_kwargs := kw |} = Raise TypeError) by reflexivity.
    split; [exact He|].
    intros m. cbn [loader_epochs]. rewrite He. reflexivity.
Qed.

End EpochFacts.

Lemma sampler_visits_every_item_witness :
  rng_key demo_sampler = Some [7] /\
  exists self' indices samples,
    sampler_iter demo_sampler = Ok (self', indices) /\
    data_source self' = data_source demo_sampler /\
    mapM (getitem (data_source demo_sampler)) indices = Ok samples /\
    Permutation (data_source demo_sampler) samples.
Proof.
  split; [reflexivity|].
  exact (@sampler_visits_every_item _ path_prng demo_sampler [7] eq_refl).
Defined.

Lemma sequential_loader_repeats_witness :
  @NumpyLoader path_key demo_dataset None 2 false demo_kwargs
  = Ok {| dataset := demo_dataset; batch_size := 2;
          loader_sampler := SequentialSampler demo_dataset;
          loader_kwargs := demo_kwargs |} /\
  forall m,
    @loader_epochs _ path_prng m
      {| dataset := demo_dataset; batch_size := 2;
         loader_sampler := SequentialSampler demo_dataset;
         loader_kwargs := demo_kwargs |}
    = Ok (repeat [ndarray [2] [10; 20]%Z; ndarray [1] [30]%Z] m).
Proof.
  split; [reflexivity|].
  exact (proj2 (@sequential_loader_repeats _ path_prng demo_dataset None 2
                  demo_kwargs _ _ _ eq_refl eq_refl)).
Defined.

Lemma NumpyLoader_without_key_witness :
  0 < 2 /\
  forall L, @NumpyLoader path_key demo_dataset None 2 true demo_kwargs = Ok L ->
            @loader_epoch _ path_prng L = Raise TypeError.
Proof.
  assert (Hs : 0 < 2) by lia.
  split; [exact Hs|].
  intros L HL.
  exact (proj1 (proj2 (proj2 (@NumpyLoader_without_key _ path_prng demo_dataset 2
                                 demo_kwargs Hs)) L HL)).
Defined.

(* ================================================================== *)
(** * Batches on several devices *)

Section ShardFacts.
Local Open Scope R_scope.

Lemma concat_chunks {A : Type} (n w : nat) :
  forall d : list A, length d = (n * w)%nat -> concat (chunks n w d) = d.
Proof.
  induction n as [|n IH]; intros d Hd.
  - simpl in Hd. apply length_zero_iff_nil in Hd. subst d. reflexivity.
  - cbn [chunks concat]. rewrite IH by (rewrite length_skipn; simpl in Hd; lia).
    apply firstn_skipn.
Qed.

(** X17.  Spreading a batch of [b] examples over [devices] devices succeeds
    exactly when [devices] divides [b]: the result then has shape
    [(devices, b / devices, ...)], holds the same entries in the same order,
    and its [devices] slices put one after the other are the batch; when
    [devices] does not divide [b] the reshape raises [ValueError]. *)
Theorem shard_divides
        (devices : nat) (x : array) (b : nat) (rest : list nat)
        (Hshape : shape x = b :: rest)
        (Hdev : (0 < devices)%nat) (Hrest : (0 < prod_shape rest)%nat) :
  ((b mod devices)%nat = 0%nat ->
   shard devices x
   = Ok {| shape := devices :: (b / devices)%nat :: rest; data := data x |} /\
   (well_formed x ->
    exists slices,
      rows {| shape := devices :: (b / devices)%nat :: rest; data := data x |}
      = Ok slices /\
      length slices = devices /\
      Forall (fun s => shape s = (b / devices)%nat :: rest) slices /\
      concat (map data slices) = data x)) /\
  ((b mod devices)%nat <> 0%nat -> shard devices x = Raise ValueError).
Proof.
  assert (Hknown : (devices * prod_shape rest)%nat <> 0%nat) by nia.
  assert (Hmod : ((b * prod_shape rest) mod (devices * prod_shape rest))%nat
                 = ((b mod devices) * prod_shape rest)%nat).
  { rewrite Nat.Div0.mul_mod_distr_r. reflexivity. }
  unfold shard. rewrite Hshape. cbn [tl prod_shape fold_right].
  fold (prod_shape rest).
  destruct (Nat.eqb_spec (devices * prod_shape rest) 0) as [|_]; [contradiction|].
  cbn [orb]. rewrite Hmod.
  split.
  - intros Hdiv. rewrite Hdiv. cbn [Nat.mul Nat.eqb negb].
    rewrite Nat.Div0.div_mul_cancel_r by lia.
    split; [reflexivity|].
    intros Hwf. unfold rows. cbn [shape data].
    eexists. split; [reflexivity|].
    split; [rewrite length_map; apply length_chunks|].
    split.
    + apply Forall_forall. intros s Hs.
      apply in_map_iff in Hs as [d [<- _]]. reflexivity.
    + rewrite map_map. cbn [data]. rewrite map_id.
      apply concat_chunks.
      unfold well_formed in Hwf. rewrite Hshape in Hwf.
      cbn [prod_shape fold_right] in *. fold (prod_shape rest) in *.
      rewrite Hwf.
      assert (Hb : b = (devices * (b / devices))%nat).
      { pose proof (Nat.div_mod_eq b devices). lia. }
      rewrite Hb at 1. lia.
  - intros Hndiv.
    destruct (Nat.eqb_spec ((b mod devices) * prod_shape rest) 0) as [E|_];
      [|reflexivity].
    apply Nat.eq_mul_0 in E. lia.
Qed.

Lemma shard_divides_witness :
  shape six_images = [6; 2]%nat /\ (0 < 3)%nat /\ (0 < prod_shape [2])%nat /\
  (6 mod 3)%nat = 0%nat /\
  shard 3 six_images
  = Ok {| shape := [3; 2; 2]%nat; data := data six_images |} /\
  (6 mod 4)%nat <> 0%nat /\
  shard 4 six_images = Raise ValueError.
Proof.
  assert (H3 : (0 < 3)%nat) by lia.
  assert (H4 : (0 < 4)%nat) by lia.
  assert (Hr : (0 < prod_shape [2])%nat) by (simpl; lia).
  assert (Hd : (6 mod 3)%nat = 0%nat) by reflexivity.
  assert (Hn : (6 mod 4)%nat <> 0%nat) by (simpl; lia).
  split; [reflexivity|]. split; [exact H3|]. split; [exact Hr|].
  split; [exact Hd|].
  split.
  - exact (proj1 (proj1 (@shard_divides 3 six_images 6 [2%nat] eq_refl H3 Hr) Hd)).
  - split; [exact Hn|].
    exact (proj2 (@shard_divides 4 six_images 6 [2%nat] eq_refl H4 Hr) Hn).
Defined.

End ShardFacts.

(* ================================================================== *)
(** * Gradient descent on a network *)

Section DescentFacts.
Local Open Scope R_scope.

(** The two leaves of every layer, in the order of [leaves]. *)
Lemma leaves_params_tree (params : list (array * array)) :
  leaves (params_tree params) = flat_map (fun wb => [fst wb; snd wb]) params.
Proof.
  unfold params_tree. cbn [leaves].
  induction params as [|[w b] r IH]; [reflexivity|].
  cbn [map flat_map leaves app fst snd]. rewrite IH. reflexivity.
Qed.

(** A tree with the structure of a parameter tree is a parameter tree. *)
Lemma params_tree_of_structure (params : list (array * array)) (t : pytree) :
  structure t = structure (params_tree params) ->
  exists params', t = params_tree params' /\ length params' = length params.
Proof.
  unfold params_tree. cbn [structure].
  destruct t as [a|cs|cs]; cbn [structure]; try discriminate.
  intros E. injection E as E. rewrite map_map in E.
  revert cs E. induction params as [|wb r IH]; intros cs E.
  - destruct cs; [|discriminate]. exists []. split; reflexivity.
  - destruct cs as [|c cs']; [discriminate|].
    cbn [map structure] in E. injection E as Ec Ecs.
    destruct (IH cs' Ecs) as [r' [Hr' Hlen]].
    destruct c as [|[|[w|?|?] [|[b|?|?] [|? ?]]]|]; cbn in Ec; try discriminate.
    exists ((w, b) :: r'). injection Hr' as Hr'. subst cs'.
    split; [reflexivity | simpl; congruence].
Qed.

Lemma flat_pairs_inj (ps qs : list (array * array)) :
  flat_map (fun wb : array * array => [fst wb; snd wb]) ps
  = flat_map (fun wb : array * array => [fst wb; snd wb]) qs ->
  ps = qs.
Proof.
  revert qs; induction ps as [|[w b] r IH]; intros [|[w' b'] r'] E;
    cbn [flat_map app fst snd] in E; try discriminate; [reflexivity|].
  injection E as -> -> E. f_equal. apply IH; exact E.
Qed.

Lemma map2_flat_pairs (lr : R) (ps gs : list (array * array)) :
  length gs = length ps ->
  map2 (sgd_leaf lr)
       (flat_map (fun wb : array * array => [fst wb; snd wb]) ps)
       (flat_map (fun wb : array * array => [fst wb; snd wb]) gs)
  = flat_map (fun wb : array * array => [fst wb; snd wb]) (step_layers lr ps gs).
Proof.
  revert gs; induction ps as [|p r IH]; intros [|g r'] Hlen; simpl in Hlen;
    try discriminate; [reflexivity|].
  cbn [flat_map app map2 step_layers fst snd].
  fold (step_layers lr r r'). rewrite (IH r') by congruence. reflexivity.
Qed.

Lemma sgd_leaf_well_formed (lr : R) (p g : array) :
  shape g = shape p -> well_formed p -> well_formed g ->
  shape (sgd_leaf lr p g) = shape p /\ well_formed (sgd_leaf lr p g).
Proof.
  intros Hs Hp Hg. split; [reflexivity|].
  unfold well_formed in *. unfold sgd_leaf. cbn [shape data].
  rewrite length_map2; [exact Hp|].
  rewrite length_map, Hp, Hg, Hs. reflexivity.
Qed.

Lemma step_layers_fit (lr : R) (params : list (array * array)) :
  forall (grads : list (array * array)) (n0 nL : nat),
  layers_fit n0 params nL ->
  map shape (flat_map (fun wb : array * array => [fst wb; snd wb]) grads)
  = map shape (flat_map (fun wb : array * array => [fst wb; snd wb]) params) ->
  Forall well_formed (flat_map (fun wb : array * array => [fst wb; snd wb]) grads) ->
  layers_fit n0 (step_layers lr params grads) nL.
Proof.
  induction params as [|[w b] r IH]; intros [|[gw gb] r'] n0 nL Hfit Hsh Hwf;
    cbn [flat_map app map fst snd] in Hsh; try discriminate.
  - exact Hfit.
  - injection Hsh as Hgw Hgb Hsh.
    cbn [flat_map app fst snd] in Hwf.
    inversion Hwf as [|? ? Hwgw Hwf']; subst.
    inversion Hwf' as [|? ? Hwgb Hwf'']; subst.
    cbn [layers_fit] in Hfit.
    destruct Hfit as [n [Hw [Hb [Hww [Hwb Hrest]]]]].
    cbn [step_layers map2 fst snd layers_fit]. fold (step_layers lr r r').
    destruct (@sgd_leaf_well_formed lr w gw Hgw Hww Hwgw) as [Hs1 Hw1].
    destruct (@sgd_leaf_well_formed lr b gb Hgb Hwb Hwgb) as [Hs2 Hw2].
    exists n. rewrite Hs1, Hs2.
    repeat split; try assumption.
    apply IH; assumption.
Qed.

Context `{Autodiff}.

(** What [sgd_update] returns when the gradient is [grads]. *)
Lemma sgd_update_ok (params : pytree) (x y : array) (lr : R) (grads : pytree) :
  grad (fun p => layers <- as_layers p ;; loss layers x y) params = Ok grads ->
  exists new,
    sgd_update params x y lr = Ok new /\
    structure new = structure params /\
    leaves new = map2 (sgd_leaf lr) (leaves params) (leaves grads).
Proof.
  intros Hgrad.
  destruct (grad_like _ _ Hgrad) as [Hstruct Hshapes].
  assert (Hlen : length (leaves grads) = length (leaves params)).
  { rewrite <- (length_map shape (leaves grads)), Hshapes. apply length_map. }
  unfold sgd_update. rewrite Hgrad. cbn [bind].
  unfold tree_map.
  rewrite (flatten_up_to_same params grads Hstruct). cbn [bind].
  rewrite (sgd_leaves lr (leaves params) (leaves grads) Hshapes). cbn [bind].
  set (ys := map2 (sgd_leaf lr) (leaves params) (leaves grads)).
  assert (Hys : length ys = length (leaves params)).
  { unfold ys. rewrite length_map2_min, Hlen. apply Nat.min_id. }
  destruct (unflatten_from_ok params ys) as [Hs [Hl _]]; [lia|].
  eexists. split; [reflexivity|]. split; [exact Hs|].
  rewrite Hl, <- Hys. apply firstn_all.
Qed.

(** X18.  Gradient descent keeps the architecture: on the parameter tree of
    layers that chain from [n0] inputs to [nL] outputs, when [grad] returns
    (well-formed arrays), [sgd_update] returns the parameter tree of as many
    layers, which chain from [n0] to [nL] again; the new layers are, leaf by
    leaf, [p - lr * g]. *)
Theorem sgd_update_keeps_fit
        (params : list (array * array)) (x y : array) (lr : R) (grads : pytree)
        (n0 nL : nat)
        (Hfit : layers_fit n0 params nL)
        (Hgrad : grad (fun p => layers <- as_layers p ;; loss layers x y)
                      (params_tree params) = Ok grads)
        (Hwf : Forall well_formed (leaves grads)) :
  exists glayers,
    grads = params_tree glayers /\
    sgd_update (params_tree params) x y lr
    = Ok (params_tree (step_layers lr params glayers)) /\
    length (step_layers lr params glayers) = length params /\
    layers_fit n0 (step_layers lr params glayers) nL.
Proof.
  destruct (grad_like _ _ Hgrad) as [Hstruct Hshapes].
  destruct (@params_tree_of_structure params grads Hstruct) as [gs [Hgs Hlen]].
  subst grads. exists gs. split; [reflexivity|].
  destruct (@sgd_update_ok (params_tree params) x y lr _ Hgrad)
    as [new [Hnew [Hsnew Hleaves]]].
  destruct (@params_tree_of_structure params new Hsnew) as [ps' [Hps' _]].
  subst new.
  rewrite (leaves_params_tree ps') in Hleaves.
  rewrite (leaves_params_tree params), (leaves_params_tree gs) in Hleaves, Hshapes.
  rewrite (leaves_params_tree gs) in Hwf.
  rewrite (@map2_flat_pairs lr params gs Hlen) in Hleaves.
  apply flat_pairs_inj in Hleaves. subst ps'.
  split; [exact Hnew|].
  split.
  { unfold step_layers. rewrite length_map2_min, Hlen. apply Nat.min_id. }
  apply step_layers_fit; assumption.
Qed.

End DescentFacts.

Lemma sgd_update_keeps_fit_witness :
  layers_fit 3 small_params 2 /\
  Forall well_formed (leaves (params_tree small_params)) /\
  exists glayers,
    params_tree small_params = params_tree glayers /\
    @sgd_update norm_grad (params_tree small_params) small_images
                (one_hot [0; 1]%nat 2) (1 / 100)
    = Ok (params_tree (step_layers (1 / 100) small_params glayers)) /\
    length (step_layers (1 / 100) small_params glayers) = length small_params /\
    layers_fit 3 (step_layers (1 / 100) small_params glayers) 2.
Proof.
  assert (Hwf : Forall well_formed (leaves (params_tree small_params)))
    by (repeat constructor).
  split; [exact small_params_fit|]. split; [exact Hwf|].
  exact (@sgd_update_keeps_fit norm_grad small_params small_images
           (one_hot [0; 1]%nat 2) (1 / 100) (params_tree small_params) 3 2
           small_params_fit eq_refl Hwf).
Defined.

(* ================================================================== *)
(** * The training loop *)

Lemma length_batch_indices (size : nat) (drop : bool) (fuel : nat) :
  0 < size ->
  forall idx : list nat, length idx <= fuel ->
  length (batch_indices fuel size drop idx)
  = Train.num_batches (length idx) size drop.
Proof.
  intros Hsize.
  assert (Hzero : Train.num_batches 0 size drop = 0).
  { unfold Train.num_batches. destruct drop.
    - apply Nat.Div0.div_0_l.
    - apply Nat.div_small. lia. }
  induction fuel as [|fuel IH]; intros idx Hfuel.
  - destruct idx; [|simpl in Hfuel; lia]. simpl. symmetry. exact Hzero.
  - destruct idx as [|x r]; [simpl; symmetry; exact Hzero|].
    cbn [batch_indices].
    set (n := length (x :: r)) in *.
    assert (Hn : 0 < n) by (unfold n; simpl; lia).
    destruct (Nat.ltb_spec n size) as [Hlt|Hge].
    + unfold Train.num_batches. destruct drop.
      * cbn [length]. symmetry. apply Nat.div_small. exact Hlt.
      * cbn [length]. replace (n + size - 1) with ((n - 1) + 1 * size) by lia.
        rewrite Nat.div_add by lia. rewrite Nat.div_small by lia. reflexivity.
    + cbn [length]. rewrite IH by (rewrite length_skipn; fold n; lia).
      rewrite length_skipn. fold n.
      unfold Train.num_batches. destruct drop.
      * replace n with ((n - size) + 1 * size) at 2 by lia.
        rewrite Nat.div_add by lia. lia.
      * replace (n + size - 1) with ((n - size + size - 1) + 1 * size) by lia.
        rewrite Nat.div_add by lia. lia.
Qed.

Lemma evaluations_step (idx n : nat) :
  Train.evaluations idx (S n)
  = (if idx mod 100 =? 0 then 1 else 0) + Train.evaluations (S idx) n.
Proof.
  unfold Train.evaluations. cbn [seq filter].
  destruct (idx mod 100 =? 0); reflexivity.
Qed.

Section TrainFacts.
Import Train.
Context {key : Type} `{PRNG key}.
Variable P : Type.
Variable update : P -> value -> R -> result P.
Variable score : P -> value -> result (Z * nat).

Lemma advance_key_0 (L : DataLoader key) : advance_key 0 L = L.
Proof.
  unfold advance_key. destruct L as [ds bs [d|[src [k|]]] kw]; reflexivity.
Qed.

Lemma advance_key_add (a b : nat) (L : DataLoader key) :
  advance_key a (advance_key b L) = advance_key (a + b) L.
Proof.
  unfold advance_key. destruct L as [ds bs [d|[src [k|]]] kw]; cbn; try reflexivity.
  unfold stored_key. rewrite Nat.iter_add. reflexivity.
Qed.

Lemma advance_key_fields (m : nat) (L : DataLoader key) :
  sampler_size (advance_key m L) = sampler_size L /\
  batch_size (advance_key m L) = batch_size L /\
  loader_kwargs (advance_key m L) = loader_kwargs L /\
  dataset (advance_key m L) = dataset L.
Proof.
  unfold advance_key, sampler_size.
  destruct L as [ds bs [d|[src [k|]]] kw]; cbn; repeat split; reflexivity.
Qed.

(** Starting a pass over a loader splits the key of its sampler once and
    yields the batches of one epoch. *)
Lemma loader_groups_effect (L L' : DataLoader key) (groups : list (list nat)) :
  0 < batch_size L ->
  loader_groups L = Ok (L', groups) ->
  L' = advance_key 1 L /\
  length groups
  = num_batches (sampler_size L) (batch_size L) (drop_last (loader_kwargs L)).
Proof.
  intros Hsize. unfold loader_groups, advance_key, sampler_size.
  destruct L as [ds bs [d|[src [k|]]] kw]; cbn in Hsize |- *.
  - intros E. inversion E; subst. split; [reflexivity|].
    rewrite length_batch_indices by (try exact Hsize; lia).
    rewrite length_seq. reflexivity.
  - intros E. inversion E; subst. split; [reflexivity|].
    rewrite length_batch_indices by (try exact Hsize; lia).
    rewrite <- (Permutation_length (permutation_shuffles _ _)).
    unfold arange, sampler_len. cbn. rewrite length_seq. reflexivity.
  - discriminate.
Qed.

Lemma accuracy_on_effect (p : P) (L L' : DataLoader key) (a : float) :
  0 < batch_size L ->
  accuracy_on score p L = Ok (L', a) -> L' = advance_key 1 L.
Proof.
  intros Hsize. unfold accuracy_on.
  destruct (loader_groups L) as [[L1 gs]|e] eqn:Hg; [|discriminate].
  cbn [bind fst snd].
  destruct (accuracy_batches score p L1 gs (py_int 0) (py_int 0)) as [totals|e];
    [|discriminate].
  cbn [bind]. destruct (ratio _ _); [|discriminate].
  cbn [bind]. intros E. inversion E; subst.
  exact (proj1 (@loader_groups_effect L L' gs Hsize Hg)).
Qed.

Lemma train_batches_effect (groups : list (list nat)) :
  forall (epoch idx : nat) (st st' : loop_state P),
  0 < batch_size (train_loader st) -> 0 < batch_size (eval_loader st) ->
  train_batches update score epoch idx groups st = Ok st' ->
  lr st' = Nat.iter (length groups) lr_step (lr st) /\
  train_loader st'
  = advance_key (evaluations idx (length groups)) (train_loader st) /\
  eval_loader st'
  = advance_key (evaluations idx (length groups)) (eval_loader st) /\
  length (printed st') = length (printed st) + evaluations idx (length groups).
Proof.
  induction groups as [|g rest IH]; intros epoch idx st st' Ht He Hrun.
  - simpl in Hrun. inversion Hrun; subst.
    cbn. rewrite !advance_key_0. repeat split; lia.
  - cbn [train_batches] in Hrun.
    destruct (fetch (train_loader st) g) as [b|e]; [|discriminate].
    cbn [bind] in Hrun.
    destruct (update (params st) b (lr st)) as [p'|e]; [|discriminate].
    cbn [bind] in Hrun.
    cbn [length]. rewrite evaluations_step, Nat.iter_succ_r.
    destruct (idx mod 100 =? 0).
    + destruct (accuracy_on score p' (train_loader st)) as [[Lt at_]|e] eqn:Hat;
        [|discriminate].
      cbn [bind fst snd] in Hrun.
      destruct (accuracy_on score p' (eval_loader st)) as [[Le ae]|e] eqn:Hae;
        [|discriminate].
      cbn [bind fst snd] in Hrun.
      apply (@accuracy_on_effect p' (train_loader st) Lt at_ Ht) in Hat.
      apply (@accuracy_on_effect p' (eval_loader st) Le ae He) in Hae.
      subst Lt Le.
      apply IH in Hrun;
        [|cbn; rewrite (proj1 (proj2 (advance_key_fields 1 _))); assumption ..].
      cbn in Hrun. destruct Hrun as [Hlr [Htl [Hel Hpr]]].
      rewrite advance_key_add in Htl, Hel. rewrite length_app in Hpr.
      replace (1 + evaluations (S idx) (length rest))
        with (evaluations (S idx) (length rest) + 1) by lia.
      repeat split; try assumption. simpl in Hpr. lia.
    + apply IH in Hrun; [|assumption ..].
      cbn in Hrun. exact Hrun.
Qed.

Lemma train_epoch_effect (epoch : nat) (st st' : loop_state P) :
  0 < batch_size (train_loader st) -> 0 < batch_size (eval_loader st) ->
  train_epoch update score epoch st = Ok st' ->
  let nb := num_batches (sampler_size (train_loader st))
                        (batch_size (train_loader st))
                        (drop_last (loader_kwargs (train_loader st))) in
  lr st' = Nat.iter nb lr_step (lr st) /\
  train_loader st' = advance_key (1 + evaluations 0 nb) (train_loader st) /\
  eval_loader st' = advance_key (evaluations 0 nb) (eval_loader st) /\
  length (printed st') = length (printed st) + evaluations 0 nb.
Proof.
  intros Ht He Hrun nb. unfold train_epoch in Hrun.
  destruct (loader_groups (train_loader st)) as [[L1 gs]|e] eqn:Hg; [|discriminate].
  cbn [bind fst snd] in Hrun.
  destruct (@loader_groups_effect (train_loader st) L1 gs Ht Hg) as [HL1 Hlen].
  fold nb in Hlen.
  apply train_batches_effect in Hrun;
    [|cbn; subst L1; rewrite ?(proj1 (proj2 (advance_key_fields 1 _))); assumption ..].
  cbn in Hrun. rewrite Hlen in Hrun. destruct Hrun as [Hlr [Htl [Hel Hpr]]].
  subst L1. rewrite advance_key_add in Htl.
  replace (1 + evaluations 0 nb) with (evaluations 0 nb + 1) by lia.
  repeat split; assumption.
Qed.

Lemma train_epochs_effect (n : nat) :
  forall (epoch : nat) (st st' : loop_state P),
  0 < batch_size (train_loader st) -> 0 < batch_size (eval_loader st) ->
  train_epochs update score n epoch st = Ok st' ->
  let nb := num_batches (sampler_size (train_loader st))
                        (batch_size (train_loader st))
                        (drop_last (loader_kwargs (train_loader st))) in
  lr st' = Nat.iter (n * nb) lr_step (lr st) /\
  train_loader st' = advance_key (n * (1 + evaluations 0 nb)) (train_loader st) /\
  eval_loader st' = advance_key (n * evaluations 0 nb) (eval_loader st) /\
  length (printed st') = length (printed st) + n * evaluations 0 nb.
Proof.
  induction n as [|n IH]; intros epoch st st' Ht He Hrun nb.
  - simpl in Hrun. inversion Hrun; subst. cbn.
    rewrite !advance_key_0. repeat split; lia.
  - cbn [train_epochs] in Hrun.
    destruct (train_epoch update score epoch st) as [st1|e] eqn:H1; [|discriminate].
    cbn [bind] in Hrun.
    destruct (@train_epoch_effect epoch st st1 Ht He H1) as [Hlr [Htl [Hel Hpr]]].
    fold nb in Hlr, Htl, Hel, Hpr.
    destruct (advance_key_fields (1 + evaluations 0 nb) (train_loader st))
      as [Fs [Fb [Fk _]]].
    destruct (advance_key_fields (evaluations 0 nb) (eval_loader st))
      as [_ [Gb _]].
    apply IH in Hrun; [|rewrite ?Htl, ?Hel, ?Fb, ?Gb; assumption ..].
    cbn zeta in Hrun. rewrite Htl, Fs, Fb, Fk in Hrun. fold nb in Hrun.
    rewrite <- Htl in Hrun.
    destruct Hrun as [Hlr' [Htl' [Hel' Hpr']]].
    rewrite Hlr in Hlr'. rewrite <- Nat.iter_add in Hlr'.
    rewrite Htl, advance_key_add in Htl'.
    rewrite Hel, advance_key_add in Hel'.
    replace (S n * nb) with (n * nb + nb) by lia.
    replace (S n * (1 + evaluations 0 nb))
      with (n * (1 + evaluations 0 nb) + (1 + evaluations 0 nb)) by lia.
    replace (S n * evaluations 0 nb)
      with (n * evaluations 0 nb + evaluations 0 nb) by lia.
    repeat split; try assumption. lia.
Qed.

End TrainFacts.

Lemma evaluations_count (n : nat) : Train.evaluations 0 n = (n + 99) / 100.
Proof.
  induction n as [|n IH]; [reflexivity|].
  unfold Train.evaluations in *.
  rewrite seq_S, filter_app, length_app, IH.
  change (0 + n) with n. cbn [filter].
  pose proof (Nat.div_mod_eq n 100) as Hq.
  pose proof (Nat.mod_upper_bound n 100 ltac:(lia)) as Hr.
  assert (H1 : (S n + 99) / 100 = n / 100 + 1)
    by (symmetry; apply (Nat.div_unique _ _ _ (n mod 100)); lia).
  rewrite H1.
  destruct (Nat.eqb_spec (n mod 100) 0) as [E|E]; cbn [length].
  - assert (H2 : (n + 99) / 100 = n / 100)
      by (symmetry; apply (Nat.div_unique _ _ _ 99); lia).
    rewrite H2. reflexivity.
  - assert (H2 : (n + 99) / 100 = n / 100 + 1)
      by (symmetry; apply (Nat.div_unique _ _ _ (n mod 100 - 1)); lia).
    rewrite H2. lia.
Qed.

Section TrainTheorems.
Import Train.
Context {key : Type} `{PRNG key}.
Variable P : Type.
Variable update : P -> value -> R -> result P.
Variable score : P -> value -> result (Z * nat).

(** X19.  When the loop gets through [n] epochs, the learning rate has gone
    through one step of the schedule per batch, evaluation or not:
    [n * nb] steps, [nb] being the number of batches of an epoch, which is
    the dataset size divided by the batch size, rounded down with
    [drop_last] and up without. *)
Theorem train_epochs_learning_rate
        (n epoch : nat) (st st' : loop_state P)
        (Htrain : 0 < batch_size (train_loader st))
        (Heval : 0 < batch_size (eval_loader st))
        (Hrun : train_epochs update score n epoch st = Ok st') :
  lr st'
  = Nat.iter (n * num_batches (sampler_size (train_loader st))
                              (batch_size (train_loader st))
                              (drop_last (loader_kwargs (train_loader st))))
             lr_step (lr st) /\
  num_batches (sampler_size (train_loader st)) (batch_size (train_loader st)) true
  = sampler_size (train_loader st) / batch_size (train_loader st) /\
  num_batches (sampler_size (train_loader st)) (batch_size (train_loader st)) false
  = (sampler_size (train_loader st) + batch_size (train_loader st) - 1)
    / batch_size (train_loader st).
Proof.
  split; [|split; reflexivity].
  exact (proj1 (@train_epochs_effect _ _ P update score n epoch st st'
                  Htrain Heval Hrun)).
Qed.

(** X20.  The evaluations inside the loop iterate the training loader, and
    every such pass splits the key of its sampler like an epoch does: after
    [n] epochs a shuffling training loader has split its key
    [n * (1 + e)] times, [e = (nb + 99) / 100] being the evaluations of an
    epoch of [nb] batches, so that the batch order of an epoch is not drawn
    from the key the epoch before left; a sequential evaluation loader is
    left as it was; [n * e] lines have been printed. *)
Theorem train_epochs_sampler_key
        (n epoch : nat) (st st' : loop_state P)
        (Htrain : 0 < batch_size (train_loader st))
        (Heval : 0 < batch_size (eval_loader st))
        (Hrun : train_epochs update score n epoch st = Ok st') :
  let nb := num_batches (sampler_size (train_loader st))
                        (batch_size (train_loader st))
                        (drop_last (loader_kwargs (train_loader st))) in
  let e := (nb + 99) / 100 in
  train_loader st' = advance_key (n * (1 + e)) (train_loader st) /\
  (forall src k0,
      loader_sampler (train_loader st)
      = RandomSampler {| data_source := src; rng_key := Some k0 |} ->
      loader_sampler (train_loader st')
      = RandomSampler {| data_source := src;
                         rng_key := Some (stored_key k0 (n * (1 + e))) |}) /\
  (forall d, loader_sampler (eval_loader st) = SequentialSampler d ->
             eval_loader st' = eval_loader st) /\
  length (printed st') = length (printed st) + n * e.
Proof.
  intros nb e.
  destruct (@train_epochs_effect _ _ P update score n epoch st st'
              Htrain Heval Hrun) as [_ [Htl [Hel Hpr]]].
  fold nb in Htl, Hel, Hpr. rewrite (evaluations_count nb) in Htl, Hel, Hpr.
  fold e in Htl, Hel, Hpr.
  split; [exact Htl|]. split; [|split; [|exact Hpr]].
  - intros src k0 Hs. rewrite Htl. unfold advance_key. rewrite Hs. reflexivity.
  - intros d Hs. rewrite Hel. unfold advance_key. rewrite Hs. reflexivity.
Qed.

End TrainTheorems.

Lemma demo_loop_runs :
  exists st',
    @Train.train_epochs _ path_prng _ Train.count_update Train.unit_score
                        2 0 Train.demo_loop_state = Ok st'.
Proof.
  eexists. cbn -[ratio].
  repeat (rewrite ratio_finite by (cbn; lra); cbn -[ratio]).
  reflexivity.
Qed.

Lemma train_epochs_learning_rate_witness :
  0 < 2 /\
  exists st',
    @Train.train_epochs _ path_prng _ Train.count_update Train.unit_score
                        2 0 Train.demo_loop_state = Ok st' /\
    Train.lr st' = Nat.iter (2 * 2) lr_step (1 / 100)%R.
Proof.
  assert (Hs : 0 < 2) by lia.
  split; [exact Hs|].
  destruct demo_loop_runs as [st' Hrun].
  exists st'. split; [exact Hrun|].
  exact (proj1 (@train_epochs_learning_rate _ path_prng _ Train.count_update
                  Train.unit_score 2 0 Train.demo_loop_state st' Hs Hs Hrun)).
Defined.

Lemma train_epochs_sampler_key_witness :
  0 < 2 /\
  exists st',
    @Train.train_epochs _ path_prng _ Train.count_update Train.unit_score
                        2 0 Train.demo_loop_state = Ok st' /\
    loader_sampler (Train.train_loader st')
    = RandomSampler {| data_source := demo_dataset;
                       rng_key := Some [0; 0; 0; 0; 7] |} /\
    Train.eval_loader st' = Train.eval_loader Train.demo_loop_state /\
    length (Train.printed st') = 2.
Proof.
  assert (Hs : 0 < 2) by lia.
  split; [exact Hs|].
  destruct demo_loop_runs as [st' Hrun].
  exists st'. split; [exact Hrun|].
  destruct (@train_epochs_sampler_key _ path_prng _ Train.count_update
              Train.unit_score 2 0 Train.demo_loop_state st' Hs Hs Hrun)
    as [_ [Hkey [Heval Hpr]]].
  split; [exact (Hkey demo_dataset [7] eq_refl)|].
  split; [exact (Heval demo_dataset eq_refl)|].
  exact Hpr.
Defined.

(* ================================================================== *)
(** * Predictions and the order of the batches *)

Section PredictionFacts.
Local Open Scope R_scope.

(** X6.  The classes [accuracy] predicts for a batch: one per example, each
    an index below the number [k] of logits, at which the logit is a largest
    one of the example, every earlier logit being strictly smaller (ties go
    to the first maximum). *)
Theorem predicted_classes_are_maxima
        (params : list (array * array)) (x logits : array)
        (predicted : list nat) (b k : nat)
        (Hforward : batched_forward params x = Ok logits)
        (Hshape : shape logits = [b; k])
        (Hdata : length (data logits) = (b * k)%nat)
        (Hpred : predict_classes params x = Ok predicted) :
  length predicted = b /\
  Forall2 (fun row c =>
             (c < k)%nat /\
             (forall v, In v row -> v <= nth c row 0) /\
             (forall j, (j < c)%nat -> nth j row 0 < nth c row 0))
          (chunks b k (data logits)) predicted.
Proof.
  unfold predict_classes in Hpred. rewrite Hforward in Hpred.
  cbn [bind] in Hpred. unfold argmax_rows in Hpred. rewrite Hshape in Hpred.
  destruct (Nat.eqb_spec k 0) as [|Hk]; [discriminate|].
  inversion Hpred; subst predicted; clear Hpred.
  split; [rewrite length_map; apply length_chunks|].
  assert (Hrows : Forall (fun row => length row = k) (chunks b k (data logits))).
  { apply Forall_forall. intros row Hrow.
    exact (proj1 (@chunks_members _ b k (data logits) row Hdata Hrow)). }
  induction Hrows as [|row rest Hlen _ IH]; [constructor|].
  cbn [map]. constructor; [|exact IH].
  assert (Hne : row <> []) by (intros ->; simpl in Hlen; lia).
  destruct (argmax_spec Hne) as [Hlt [Hmax Hfirst]].
  rewrite Hlen in Hlt. repeat split; assumption.
Qed.

Lemma predicted_classes_are_maxima_witness :
  batched_forward identity_params (fst (hd (zeros [], []) demo_loader))
  = Ok {| shape := [2; 2]%nat; data := [3; 1; 1; 3] |} /\
  predict_classes identity_params (fst (hd (zeros [], []) demo_loader))
  = Ok [0; 1]%nat /\
  length [0; 1]%nat = 2%nat.
Proof.
  assert (Hf : batched_forward identity_params (fst (hd (zeros [], []) demo_loader))
               = Ok {| shape := [2; 2]%nat; data := [3; 1; 1; 3] |}).
  { unfold batched_forward, vmap. simpl.
    unfold add, zip_with, dotp. simpl.
    do 2 f_equal. repeat (f_equal; try ring). }
  assert (Hp : predict_classes identity_params (fst (hd (zeros [], []) demo_loader))
               = Ok [0; 1]%nat).
  { pose proof demo_predictions as H. inversion H; subst. assumption. }
  split; [exact Hf|]. split; [exact Hp|].
  exact (proj1 (@predicted_classes_are_maxima identity_params _ _ _ 2 2
                  Hf eq_refl eq_refl Hp)).
Defined.







End PredictionFacts.
